(** * Roster engine of the football sign-up bot (src/main.py)

    A shallow embedding of the roster state machine of [main.py]: the
    per-chat event dictionary, the helpers [ensure_event], [find_user] and
    [vip_rows], and the handlers [newgame], [handle_join], [lock_cmd],
    [unlock_cmd] and [reset_cmd].  Handlers are written in a small state
    monad over the chat's [chat_data] and the UTC clock, so that the
    definitions read like the Python they embed.  [handle_leave], which
    main.py calls and does not define, follows the specification. *)

From Stdlib Require Import ZArith Ascii String DecimalString Lia.
From stdpp Require Import base option list strings.

Local Open Scope string_scope.
Local Open Scope list_scope.
Local Open Scope Z_scope.

(** ** Configuration constants (main.py, lines 40-46) *)

Definition DEFAULT_CAPACITY : Z := 15.
Definition WAITLIST_CAPACITY : Z := 5.
Definition VIP_NAMES : list string := ["Albert"; "Ah Soon"].

(** ** Data model *)

(** The text returned by [now_iso()]. *)
Definition timestamp := string.

(** A row of [players] or [waitlist]:
    [{"user_id": ..., "name": ..., "joined_at": ..., "is_vip": ...}];
    [user_id] is [None] for a slot reserved by name. *)
Record row := Row {
  user_id : option Z;
  name : string;
  joined_at : timestamp;
  is_vip : bool
}.

(** The event dictionary stored under [chat_data["event"]]. *)
Record event := Event {
  title : option string;
  capacity : Z;
  locked : bool;
  players : list row;
  waitlist : list row;
  created_at : timestamp
}.

Definition set_locked (b : bool) (e : event) : event :=
  Event (title e) (capacity e) b (players e) (waitlist e) (created_at e).
Definition set_players (l : list row) (e : event) : event :=
  Event (title e) (capacity e) (locked e) l (waitlist e) (created_at e).
Definition set_waitlist (l : list row) (e : event) : event :=
  Event (title e) (capacity e) (locked e) (players e) l (created_at e).

(** [update.effective_user]: the two attributes the handlers read. *)
Record tg_user := TgUser { id : Z; full_name : string }.

(** What a handler sees and changes: the ["event"] key of
    [context.chat_data] (absent or an event) and the number of clock
    readings taken so far. *)
Record world := World {
  chat_data : option event;
  ticks : nat
}.

(** The text a handler sends back, by kind; numbers are the ones
    interpolated into the message.
    - [FORBIDDEN]: "Only admins can ..." (newgame, lock, unlock, reset)
    - [CREATED t c]: "Created new game: t / Capacity: c"
    - [LOCK_OK], [UNLOCK_OK], [RESET_OK]: "Sign-ups locked.",
      "Sign-ups unlocked.", "Event reset."
    - [LOCKED]: "Sign-ups are locked."
    - [ALREADY_CONFIRMED p]: "You're already in the list at #p."
    - [ALREADY_WAITLISTED p]: "You're already on the waitlist at WL#p."
    - [CONFIRMED p]: "Joined! You are #p."
    - [WAITLISTED p]: "List is full. You are WL#p."
    - [FULL]: "List and waitlist are full. Sorry!"
    - [LEFT_CONFIRMED], [LEFT_WAITLIST], [NOT_FOUND]: the outcomes of
      leave. *)
Inductive reply :=
| FORBIDDEN
| CREATED (t : string) (c : Z)
| LOCK_OK
| UNLOCK_OK
| RESET_OK
| LOCKED
| ALREADY_CONFIRMED (pos : Z)
| ALREADY_WAITLISTED (pos : Z)
| CONFIRMED (pos : Z)
| WAITLISTED (pos : Z)
| FULL
| LEFT_CONFIRMED (promoted : option row)
| LEFT_WAITLIST
| NOT_FOUND.

(** ** The handler monad *)

Definition act (A : Type) : Type := world -> A * world.

Definition ret {A} (a : A) : act A := fun w => (a, w).
Definition bind {A B} (m : act A) (k : A -> act B) : act B :=
  fun w => let (a, w') := m w in k a w'.

Notation "x <- m ;; k" := (bind m (fun x => k))
  (at level 100, m at next level, right associativity).
Notation "m ;;; k" := (bind m (fun _ => k))
  (at level 100, right associativity).

Definition get_event : act (option event) := fun w => (chat_data w, w).
Definition put_event (e : event) : act unit :=
  fun w => (tt, World (Some e) (ticks w)).
(** [chat_data.pop("event", None)] *)
Definition pop_event : act unit := fun w => (tt, World None (ticks w)).

(** ** Pure helpers *)

(** [find_user] (lines 109-113): index of the first row whose [user_id]
    equals the given id, [-1] when there is none. *)
Fixpoint find_user_from (i : Z) (lst : list row) (uid : Z) : Z :=
  match lst with
  | [] => -1
  | r :: rest =>
      if decide (user_id r = Some uid) then i
      else find_user_from (i + 1) rest uid
  end.

Definition find_user (lst : list row) (uid : Z) : Z := find_user_from 0 lst uid.

(** Python's [lst[:k]]: the first [k] items, and for a negative [k] all
    but the last [-k]. *)
Definition slice_to {A} (lst : list A) (k : Z) : list A :=
  if 0 <=? k then take (Z.to_nat k) lst
  else take (Z.to_nat (Z.of_nat (length lst) + k)) lst.

(** [x or default] on an optional string: [None] and [""] are falsy. *)
Definition or_else (x : option string) (default : string) : string :=
  match x with
  | None => default
  | Some s => if decide (s = "") then default else s
  end.

Section Handlers.

(** The surroundings the handlers call into: Python's [int] on a
    command token ([None] where it raises), the title made of the
    remaining tokens (joined, stripped and passed through dateutil's
    fuzzy parser), and the successive readings of the UTC clock. *)
Variable py_int : string -> option Z.
Variable title_of_args : list string -> string.
Variable utc : nat -> timestamp.

(** [now_iso] (lines 81-82) *)
Definition now_iso : act timestamp :=
  fun w => (utc (ticks w), World (chat_data w) (S (ticks w))).

(** The dictionary [ensure_event] builds when the chat has no event. *)
Definition default_event (ts : timestamp) : event :=
  {| title := None; capacity := DEFAULT_CAPACITY; locked := false;
     players := []; waitlist := []; created_at := ts |}.

(** [ensure_event] (lines 96-106) *)
Definition ensure_event : act event :=
  cd <- get_event ;;
  match cd with
  | Some ev => ret ev
  | None =>
      ts <- now_iso ;;
      put_event (default_event ts) ;;;
      ret (default_event ts)
  end.

(** [vip_rows] (lines 145-160): the loop over the names, with [rows] the
    list built so far. *)
Fixpoint vip_rows_loop (names : list string) (cap : Z) (rows : list row)
  : act (list row) :=
  match names with
  | [] => ret rows
  | nm :: rest =>
      if Z.of_nat (length rows) >=? cap then ret rows
      else
        ts <- now_iso ;;
        vip_rows_loop rest cap
          (rows ++ [{| user_id := None; name := nm; joined_at := ts;
                       is_vip := true |}])
  end.

Definition vip_rows (cap : Z) : act (list row) := vip_rows_loop VIP_NAMES cap [].

(** [newgame] (lines 182-227); [admin] is the answer of
    [user_is_admin]. *)
Definition newgame (admin : bool) (args : list string) : act reply :=
  if negb admin then ret FORBIDDEN
  else
    ev <- ensure_event ;;
    let cap0 := capacity ev in
    let title0 := or_else (title ev) "Next Game" in
    let '(cap, args') :=
      match args with
      | [] => (cap0, args)
      | _ :: _ =>
          match py_int (List.last args "") with
          | Some maybe_cap => (maybe_cap, removelast args)
          | None => (cap0, args)
          end
      end in
    let title' :=
      match args with
      | [] => title0
      | _ :: _ =>
          match args' with
          | [] => title0
          | _ :: _ => title_of_args args'
          end
      end in
    seeded <- vip_rows (Z.max 1 cap) ;;
    ts <- now_iso ;;
    put_event {| title := Some title'; capacity := Z.max 1 cap;
                 locked := false; players := slice_to seeded cap;
                 waitlist := []; created_at := ts |} ;;;
    ret (CREATED title' cap).

(** [lock_cmd] (lines 246-252) *)
Definition lock_cmd (admin : bool) : act reply :=
  if negb admin then ret FORBIDDEN
  else
    ev <- ensure_event ;;
    put_event (set_locked true ev) ;;;
    ret LOCK_OK.

(** [unlock_cmd] (lines 255-261) *)
Definition unlock_cmd (admin : bool) : act reply :=
  if negb admin then ret FORBIDDEN
  else
    ev <- ensure_event ;;
    put_event (set_locked false ev) ;;;
    ret UNLOCK_OK.

(** [reset_cmd] (lines 264-272) *)
Definition reset_cmd (admin : bool) : act reply :=
  if negb admin then ret FORBIDDEN
  else
    pop_event ;;;
    _ <- ensure_event ;;
    ret RESET_OK.

(** [handle_join] (lines 307-344) *)
Definition handle_join (user : tg_user) : act reply :=
  ev <- ensure_event ;;
  if locked ev then ret LOCKED
  else
    let uid := id user in
    let display_name := full_name user in
    let i := find_user (players ev) uid in
    if negb (i =? -1) then ret (ALREADY_CONFIRMED (i + 1))
    else
      let j := find_user (waitlist ev) uid in
      if negb (j =? -1) then ret (ALREADY_WAITLISTED (j + 1))
      else
        let cap := capacity ev in
        ts <- now_iso ;;
        let entry := {| user_id := Some uid; name := display_name;
                        joined_at := ts; is_vip := false |} in
        if Z.of_nat (length (players ev)) <? cap then
          let ev' := set_players (players ev ++ [entry]) ev in
          put_event ev' ;;;
          ret (CONFIRMED (Z.of_nat (length (players ev'))))
        else if Z.of_nat (length (waitlist ev)) >=? WAITLIST_CAPACITY then
          ret FULL
        else
          let ev' := set_waitlist (waitlist ev ++ [entry]) ev in
          put_event ev' ;;;
          ret (WAITLISTED (Z.of_nat (length (waitlist ev')))).

(** Modelled from the spec: [handle_leave], which [leave_cmd] (lines
    234-235) and [on_button] call and main.py does not define.  Following
    section 4.1: search [players] by identifier and remove the entry
    found, then move the first waitlist entry, if any, to the end of
    [players]; else search [waitlist] and remove the entry found; else
    refuse.  The search is [find_user], the removal Python's
    [lst.pop(i)], and the event is materialised by [ensure_event] as in
    every other handler. *)
Definition handle_leave (user : tg_user) : act reply :=
  ev <- ensure_event ;;
  let uid := id user in
  let i := find_user (players ev) uid in
  if negb (i =? -1) then
    let remaining := delete (Z.to_nat i) (players ev) in
    match waitlist ev with
    | [] =>
        put_event (set_players remaining ev) ;;;
        ret (LEFT_CONFIRMED None)
    | promoted :: rest =>
        put_event (set_waitlist rest (set_players (remaining ++ [promoted]) ev)) ;;;
        ret (LEFT_CONFIRMED (Some promoted))
    end
  else
    let j := find_user (waitlist ev) uid in
    if negb (j =? -1) then
      put_event (set_waitlist (delete (Z.to_nat j) (waitlist ev)) ev) ;;;
      ret LEFT_WAITLIST
    else ret NOT_FOUND.

(** ** Requests and runs *)

Inductive request :=
| Newgame (admin : bool) (args : list string)
| Join (user : tg_user)
| Leave (user : tg_user)
| Lock (admin : bool)
| Unlock (admin : bool)
| Reset (admin : bool).

Definition handle (rq : request) : act reply :=
  match rq with
  | Newgame admin args => newgame admin args
  | Join user => handle_join user
  | Leave user => handle_leave user
  | Lock admin => lock_cmd admin
  | Unlock admin => unlock_cmd admin
  | Reset admin => reset_cmd admin
  end.

(** The world after serving the requests in order; a chat starts
    without an event, as [World None n]. *)
Definition run (rqs : list request) (w : world) : world :=
  fold_left (fun w rq => snd (handle rq w)) rqs w.

End Handlers.

(** ** Vocabulary of the properties *)

(** The identifiers held by the rows of a list, in order; a reserved row
    ([user_id] is [None]) holds none. *)
Definition ids (lst : list row) : list Z := omap user_id lst.

(** [first_at lst uid p]: the row at 1-based position [p] of [lst]
    carries [uid] and no earlier row does. *)
Definition first_at (lst : list row) (uid : Z) (p : Z) : Prop :=
  exists (k : nat) (r : row),
    p = Z.of_nat k + 1 /\ lst !! k = Some r /\ user_id r = Some uid /\
    forall (k' : nat) (r' : row),
      (k' < k)%nat -> lst !! k' = Some r' -> user_id r' <> Some uid.

(** The roster a handler acts on in world [w]: the stored event, or the
    default one that [ensure_event] creates on first access. *)
Definition roster_of (utc : nat -> timestamp) (w : world) : event :=
  fst (ensure_event utc w).

(** The row [vip_rows] reserves for a name. *)
Definition vip_row (nm : string) (ts : timestamp) : row :=
  {| user_id := None; name := nm; joined_at := ts; is_vip := true |}.

(** The entry [handle_join] makes for an actor. *)
Definition joined_row (u : tg_user) (ts : timestamp) : row :=
  {| user_id := Some (id u); name := full_name u; joined_at := ts;
     is_vip := false |}.

(** Both lists within their bounds. *)
Definition within_capacity (ev : event) : Prop :=
  Z.of_nat (length (players ev)) <= capacity ev /\
  Z.of_nat (length (waitlist ev)) <= WAITLIST_CAPACITY.

(** No identifier held twice by the rows of the confirmed list followed
    by those of the waitlist. *)
Definition distinct_ids (ev : event) : Prop :=
  NoDup (ids (players ev ++ waitlist ev)).

(** The branches of join as section 4.1 of the specification lists
    them: [join_spec ev u ts ev' r] relates the roster [ev], the actor
    and the time of the request to the roster afterwards and the
    outcome. *)
Inductive join_spec (ev : event) (u : tg_user) (ts : timestamp)
  : event -> reply -> Prop :=
| join_locked :
    locked ev = true ->
    join_spec ev u ts ev LOCKED
| join_already_confirmed p :
    locked ev = false ->
    first_at (players ev) (id u) p ->
    join_spec ev u ts ev (ALREADY_CONFIRMED p)
| join_already_waitlisted p :
    locked ev = false ->
    id u ∉ ids (players ev) ->
    first_at (waitlist ev) (id u) p ->
    join_spec ev u ts ev (ALREADY_WAITLISTED p)
| join_confirmed :
    locked ev = false ->
    id u ∉ ids (players ev) ->
    id u ∉ ids (waitlist ev) ->
    Z.of_nat (length (players ev)) < capacity ev ->
    join_spec ev u ts
      (set_players (players ev ++ [joined_row u ts]) ev)
      (CONFIRMED (Z.of_nat (length (players ev)) + 1))
| join_waitlisted :
    locked ev = false ->
    id u ∉ ids (players ev) ->
    id u ∉ ids (waitlist ev) ->
    capacity ev <= Z.of_nat (length (players ev)) ->
    Z.of_nat (length (waitlist ev)) < WAITLIST_CAPACITY ->
    join_spec ev u ts
      (set_waitlist (waitlist ev ++ [joined_row u ts]) ev)
      (WAITLISTED (Z.of_nat (length (waitlist ev)) + 1))
| join_full :
    locked ev = false ->
    id u ∉ ids (players ev) ->
    id u ∉ ids (waitlist ev) ->
    capacity ev <= Z.of_nat (length (players ev)) ->
    WAITLIST_CAPACITY <= Z.of_nat (length (waitlist ev)) ->
    join_spec ev u ts ev FULL.

(** The branches of leave as section 4.1 lists them. *)
Inductive leave_spec (ev : event) (u : tg_user) : event -> reply -> Prop :=
| leave_confirmed_alone (k : nat) :
    first_at (players ev) (id u) (Z.of_nat k + 1) ->
    waitlist ev = [] ->
    leave_spec ev u (set_players (delete k (players ev)) ev)
      (LEFT_CONFIRMED None)
| leave_confirmed_promoting (k : nat) first rest :
    first_at (players ev) (id u) (Z.of_nat k + 1) ->
    waitlist ev = first :: rest ->
    leave_spec ev u
      (set_waitlist rest (set_players (delete k (players ev) ++ [first]) ev))
      (LEFT_CONFIRMED (Some first))
| leave_waitlisted (k : nat) :
    id u ∉ ids (players ev) ->
    first_at (waitlist ev) (id u) (Z.of_nat k + 1) ->
    leave_spec ev u (set_waitlist (delete k (waitlist ev)) ev) LEFT_WAITLIST
| leave_not_found :
    id u ∉ ids (players ev) ->
    id u ∉ ids (waitlist ev) ->
    leave_spec ev u ev NOT_FOUND.

(** The capacity a [/newgame] command line carries, if any: its last
    token when [int] accepts it. *)
Definition capacity_override (py_int : string -> option Z)
    (args : list string) : option Z :=
  match args with
  | [] => None
  | _ :: _ => py_int (List.last args "")
  end.

(** The capacity newgame works with: the override, or else the capacity
    [current] of the roster in effect. *)
Definition requested_capacity (py_int : string -> option Z)
    (args : list string) (current : Z) : Z :=
  match capacity_override py_int args with
  | Some c => c
  | None => current
  end.

(** *** A concrete surrounding, for evaluating the handlers *)

Fixpoint digits_value (acc : Z) (s : string) : option Z :=
  match s with
  | EmptyString => Some acc
  | String c rest =>
      let n := Z.of_nat (nat_of_ascii c) in
      if (48 <=? n) && (n <=? 57) then digits_value (10 * acc + (n - 48)) rest
      else None
  end.

(** [int] on a token made of an optional sign and ASCII decimal digits;
    tokens of any other shape used below (words) raise. *)
Definition decimal_int (s : string) : option Z :=
  match s with
  | EmptyString => None
  | String "-"%char EmptyString | String "+"%char EmptyString => None
  | String "-"%char rest => Z.opp <$> digits_value 0 rest
  | String "+"%char rest => digits_value 0 rest
  | _ => digits_value 0 s
  end.

(** The title of tokens in which dateutil finds no date: the tokens
    joined by single spaces. *)
Definition plain_title (args : list string) : string := String.concat " " args.

Fixpoint tally (n : nat) : string :=
  match n with
  | O => ""
  | S k => String "'"%char (tally k)
  end.

(** A clock whose successive readings differ. *)
Definition test_clock (n : nat) : timestamp := String.append "2025-10-04T11:00:00" (tally n).

(** Requests served with this surrounding, from a chat without an event
    and a clock not yet read. *)
Definition play (rqs : list request) : world :=
  run decimal_int plain_title test_clock rqs (World None 0).

(** Sample actors; [albert] carries the display name of a VIP. *)
Definition ann : tg_user := TgUser 1 "Ann".
Definition bob : tg_user := TgUser 2 "Bob".
Definition cy : tg_user := TgUser 3 "Cy".
Definition dee : tg_user := TgUser 4 "Dee".
Definition albert : tg_user := TgUser 1001 "Albert".

(** A roster for two with two confirmed actors and three waiting. *)
Definition crowded : event :=
  {| title := Some "Sat"; capacity := 2; locked := false;
     players := [joined_row ann "t1"; joined_row bob "t2"];
     waitlist := [joined_row cy "t3"; joined_row dee "t4";
                  joined_row albert "t5"];
     created_at := "t0" |}.

(** ** The rest of main.py: admin check, keyboard, roster text, commands *)

(** The classes of [ChatMember] that [get_chat_member] answers with. *)
Inductive chat_member :=
| ChatMemberOwner
| ChatMemberAdministrator
| ChatMemberMember
| ChatMemberRestricted
| ChatMemberLeft
| ChatMemberBanned.

(** [is_admin] (lines 64-65) *)
Definition is_admin (member : chat_member) : bool :=
  match member with
  | ChatMemberAdministrator | ChatMemberOwner => true
  | _ => false
  end.

(** [user_is_admin] (lines 68-78): [chat] and [user] are the ids of
    [update.effective_chat] and [update.effective_user], [None] when the
    update has none; [get_chat_member] answers [None] where the call
    raises. *)
Definition user_is_admin (get_chat_member : Z -> Z -> option chat_member)
    (chat user : option Z) : bool :=
  match chat, user with
  | Some c, Some u =>
      match get_chat_member c u with
      | Some member => is_admin member
      | None => false
      end
  | _, _ => false
  end.

(** An [InlineKeyboardButton] and the rows of an [InlineKeyboardMarkup]. *)
Record button := Button { text : string; callback_data : string }.
Definition keyboard := list (list button).

(** [make_keyboard] (lines 85-93) *)
Definition make_keyboard (is_locked : bool) : keyboard :=
  let buttons :=
    [ [Button "✅ Join" "join"];
      [Button "🚪 Leave" "leave"];
      [Button "📋 List" "list"] ] in
  if is_locked then
    alter (fun row => <[0%nat := Button "🔒 Locked" "noop"]> row) 0%nat buttons
  else buttons.

(** [str] of an integer, and an f-string's [{s:>w}]. *)
Definition py_str (n : Z) : string := NilZero.string_of_int (Z.to_int n).
Definition rjust (w : nat) (s : string) : string :=
  String.append (string_of_list_ascii (replicate (w - String.length s) " "%char)) s.

Definition newline : string := String "010"%char "".

(** The help text of [start] (lines 168-176). *)
Definition start_text : string :=
  String.concat ""
    [ "Hi! I manage sign-ups for your football matches."; newline; newline;
      "Use the buttons below or commands:"; newline;
      "- /join — claim a slot"; newline;
      "- /leave — give up your slot"; newline;
      "- /list — show roster"; newline; newline;
      "Admins: /newgame, /lock, /unlock, /reset"; newline;
      "Capacity defaults to "; py_str DEFAULT_CAPACITY;
      ". Waitlist up to "; py_str WAITLIST_CAPACITY; "." ].

(** What the commands and buttons below send: the reply of a roster
    handler, the help text, or the roster text, the last two with a
    keyboard. *)
Inductive ui_reply :=
| Said (r : reply)
| Help (body : string) (kb : keyboard)
| Roster (body : string) (kb : keyboard).

Section Interface.

(** [html.escape] and the clock. *)
Variable html_escape : string -> string.
Variable utc : nat -> timestamp.

(** The line of a confirmed row and of a waitlist row in
    [format_roster], [i] counting from 1. *)
Definition player_line (i : nat) (p : row) : string :=
  String.concat ""
    [ rjust 2 (py_str (Z.of_nat i)); ". "; html_escape (name p);
      if is_vip p then " (VIP)" else "" ].
Definition wait_line (i : nat) (p : row) : string :=
  String.concat "" [ "WL"; rjust 2 (py_str (Z.of_nat i)); ". "; html_escape (name p) ].

(** [format_roster] (lines 116-142): the list [lines] ... *)
Definition roster_lines (ev : event) : list string :=
  let title' := or_else (title ev) "Upcoming Game" in
  let cap := capacity ev in
  let wait_cap := WAITLIST_CAPACITY in
  let lines :=
    [ String.concat "" ["<b>⚽ "; html_escape title'; "</b>"];
      String.concat ""
        [ "Slots: <b>"; py_str (Z.of_nat (length (players ev))); "/"; py_str cap;
          "</b>  •  Waitlist: <b>"; py_str (Z.of_nat (length (waitlist ev)));
          "/"; py_str wait_cap; "</b>" ];
      "";
      "<b>Confirmed</b>" ] in
  let lines :=
    match players ev with
    | [] => lines ++ ["(no one yet)"]
    | _ :: _ => lines ++ imap (fun i p => player_line (S i) p) (players ev)
    end in
  match waitlist ev with
  | [] => lines
  | _ :: _ =>
      (lines ++ [""; "<b>Waitlist</b>"])
        ++ imap (fun i p => wait_line (S i) p) (waitlist ev)
  end.

(** ... and its join. *)
Definition format_roster (ev : event) : string :=
  String.concat newline (roster_lines ev).

(** [start] (lines 166-179) *)
Definition start : act ui_reply :=
  ev <- ensure_event utc ;;
  ret (Help start_text (make_keyboard (locked ev))).

(** [join_cmd] (lines 230-231) *)
Definition join_cmd (user : tg_user) : act reply := handle_join utc user.

(** [list_cmd] (lines 238-243) *)
Definition list_cmd : act ui_reply :=
  ev <- ensure_event utc ;;
  ret (Roster (format_roster ev) (make_keyboard (locked ev))).

(** [on_button] (lines 278-293), after the query is answered: [data] is
    [query.data]; [None] when nothing is sent.  Its leave branch calls
    [handle_leave]. *)
Definition on_button (data : string) (user : tg_user) : act (option ui_reply) :=
  if decide (data = "join") then
    r <- handle_join utc user ;; ret (Some (Said r))
  else if decide (data = "leave") then
    r <- handle_leave utc user ;; ret (Some (Said r))
  else if decide (data = "list") then
    ev <- ensure_event utc ;;
    ret (Some (Roster (format_roster ev) (make_keyboard (locked ev))))
  else ret None.

End Interface.

(** Requests that are a join, a lock or an unlock. *)
Definition adds_only (rq : request) : bool :=
  match rq with
  | Join _ | Lock _ | Unlock _ => true
  | _ => false
  end.

(** Requests other than a leave. *)
Definition not_leave (rq : request) : bool :=
  match rq with
  | Leave _ => false
  | _ => true
  end.

(** The tokens of a [/newgame] line that make the title: all of them but
    a trailing capacity. *)
Definition title_tokens (py_int : string -> option Z)
    (args : list string) : list string :=
  match capacity_override py_int args with
  | Some _ => removelast args
  | None => args
  end.

(** A chat-member directory for evaluating [user_is_admin]: in chat 10,
    user 1 owns the chat, user 2 is a plain member, and asking about user
    3 raises. *)
Definition sample_directory (chat user : Z) : option chat_member :=
  if (chat =? 10) && (user =? 1) then Some ChatMemberOwner
  else if (chat =? 10) && (user =? 2) then Some ChatMemberMember
  else None.

(** [html.escape] with its default [quote=True], character by
    character: the five characters it rewrites, as for [str.replace]
    applied to "&" first. *)
Fixpoint html_escape_text (s : string) : string :=
  match s with
  | EmptyString => EmptyString
  | String c rest =>
      String.append
        (if Ascii.eqb c "&" then "&amp;"
         else if Ascii.eqb c "<" then "&lt;"
         else if Ascii.eqb c ">" then "&gt;"
         else if Ascii.eqb c "034" then "&quot;"
         else if Ascii.eqb c "'" then "&#x27;"
         else String c EmptyString)
        (html_escape_text rest)
  end.

(** * Properties *)

(** Unfolds a handler down to the pairs it computes. *)
Ltac run_act :=
  unfold roster_of, handle_join, handle_leave, newgame, lock_cmd, unlock_cmd,
    reset_cmd, ensure_event, bind, ret, get_event, put_event, pop_event,
    now_iso in *;
  simpl in *.

Section Properties.

Variable py_int : string -> option Z.
Variable title_of_args : list string -> string.
Variable utc : nat -> timestamp.

(** ** [find_user] *)

Lemma find_user_from_range (i : Z) (lst : list row) (uid : Z) :
  find_user_from i lst uid = -1 \/
  i <= find_user_from i lst uid < i + Z.of_nat (length lst).
Proof.
  revert i. induction lst as [|r rest IH]; intros i; simpl.
  - now left.
  - case_decide.
    + right. lia.
    + destruct (IH (i + 1)) as [-> | Hr]; [now left | right; lia].
Qed.

Lemma find_user_from_absent (i : Z) (lst : list row) (uid : Z) :
  0 <= i ->
  find_user_from i lst uid = -1 <-> uid ∉ ids lst.
Proof.
  unfold ids. revert i. induction lst as [|r rest IH]; intros i Hi; simpl.
  - split; [intros _; apply not_elem_of_nil | reflexivity].
  - case_decide as Hr.
    + rewrite Hr. simpl. split; [lia | intros Hn; exfalso; apply Hn; left].
    + rewrite (IH (i + 1)) by lia.
      destruct (user_id r) as [v|] eqn:Ev; simpl; [|reflexivity].
      rewrite not_elem_of_cons. split; [|tauto].
      intros Hn. split; [congruence | exact Hn].
Qed.

Lemma find_user_from_found (i : Z) (lst : list row) (uid : Z) :
  0 <= i ->
  find_user_from i lst uid <> -1 ->
  exists k : nat,
    find_user_from i lst uid = i + Z.of_nat k /\
    first_at lst uid (Z.of_nat k + 1).
Proof.
  revert i. induction lst as [|r rest IH]; intros i Hi; simpl.
  - congruence.
  - case_decide as Hr; intros Hf.
    + exists 0%nat. split; [lia|]. exists 0%nat, r.
      split; [done|]. split; [done|]. split; [done|].
      intros k' r' Hk. lia.
    + destruct (IH (i + 1) ltac:(lia) Hf) as (k & Hk & (k0 & r0 & Hp & Hl & Hu & Hb)).
      assert (k0 = k) as -> by lia.
      exists (S k). split; [lia|]. exists (S k), r0.
      split; [lia|]. split; [done|]. split; [done|].
      intros [|k'] r' Hlt; simpl; intros Hl'.
      * congruence.
      * apply (Hb k' r'); [lia | done].
Qed.

Lemma first_at_present (lst : list row) (uid p : Z) :
  first_at lst uid p -> uid ∈ ids lst.
Proof.
  intros (k & r & _ & Hl & Hu & _). apply list_elem_of_omap. exists r.
  split; [|done]. apply list_elem_of_lookup. eauto.
Qed.

Lemma first_at_unique (lst : list row) (uid p q : Z) :
  first_at lst uid p -> first_at lst uid q -> p = q.
Proof.
  intros (k & r & -> & Hl & Hu & Hb) (k' & r' & -> & Hl' & Hu' & Hb').
  destruct (Nat.lt_trichotomy k k') as [H | [-> | H]]; [|done|].
  - exfalso. exact (Hb' k r H Hl Hu).
  - exfalso. exact (Hb k' r' H Hl' Hu').
Qed.

Lemma find_user_absent (lst : list row) (uid : Z) :
  find_user lst uid = -1 <-> uid ∉ ids lst.
Proof. apply find_user_from_absent. lia. Qed.

Lemma find_user_found (lst : list row) (uid : Z) :
  find_user lst uid <> -1 ->
  exists k : nat,
    find_user lst uid = Z.of_nat k /\ first_at lst uid (Z.of_nat k + 1).
Proof.
  intros Hf. destruct (find_user_from_found 0 lst uid ltac:(lia) Hf) as (k & Hk & Hp).
  exists k. split; [unfold find_user; lia | done].
Qed.

(** The two spec relations are functional: the premises of their
    branches exclude one another. *)
Lemma join_spec_functional ev u ts e1 r1 e2 r2 :
  join_spec ev u ts e1 r1 -> join_spec ev u ts e2 r2 -> e1 = e2 /\ r1 = r2.
Proof.
  intros H1 H2.
  destruct H1; destruct H2;
    repeat match goal with
           | H : first_at _ _ _ |- _ =>
               pose proof (first_at_present _ _ _ H); revert H
           end; intros;
    try (split; reflexivity); try congruence; try lia; try tauto.
  - split; [done|]. f_equal. eapply first_at_unique; eauto.
  - split; [done|]. f_equal. eapply first_at_unique; eauto.
Qed.

Lemma leave_spec_functional ev u e1 r1 e2 r2 :
  leave_spec ev u e1 r1 -> leave_spec ev u e2 r2 -> e1 = e2 /\ r1 = r2.
Proof.
  intros H1 H2.
  destruct H1; destruct H2;
    repeat match goal with
           | H : first_at _ _ _ |- _ =>
               pose proof (first_at_present _ _ _ H); revert H
           end; intros;
    try (split; reflexivity); try congruence; try tauto;
    match goal with
    | Ha : first_at ?l ?x (Z.of_nat ?k + 1),
      Hb : first_at ?l ?x (Z.of_nat ?k' + 1) |- _ =>
        assert (k = k') as -> by (pose proof (first_at_unique _ _ _ _ Ha Hb); lia)
    end;
    try (split; reflexivity).
  split; congruence.
Qed.

(** ** [ensure_event] *)

Lemma ensure_event_present (ev : event) (n : nat) :
  ensure_event utc (World (Some ev) n) = (ev, World (Some ev) n).
Proof. reflexivity. Qed.

Lemma ensure_event_absent (n : nat) :
  ensure_event utc (World None n)
  = (default_event (utc n), World (Some (default_event (utc n))) (S n)).
Proof. reflexivity. Qed.

Lemma ensure_event_stores (w : world) :
  chat_data (snd (ensure_event utc w)) = Some (roster_of utc w).
Proof. destruct w as [[ev|] n]; reflexivity. Qed.

(** ** Join *)

(** Join on a stored roster, branch by branch. *)
Lemma join_stored (ev : event) (n : nat) (u : tg_user) :
  exists ev',
    chat_data (snd (handle_join utc u (World (Some ev) n))) = Some ev' /\
    join_spec ev u (utc n) ev' (fst (handle_join utc u (World (Some ev) n))).
Proof.
  run_act. destruct (locked ev) eqn:Hl; simpl.
  { eexists; split; [reflexivity | now constructor]. }
  destruct (Z.eqb_spec (find_user (players ev) (id u)) (-1)) as [Hi|Hi]; simpl.
  2:{ destruct (find_user_found _ _ Hi) as (k & -> & Hk).
      eexists; split; [reflexivity | now constructor]. }
  destruct (Z.eqb_spec (find_user (waitlist ev) (id u)) (-1)) as [Hj|Hj]; simpl.
  2:{ destruct (find_user_found _ _ Hj) as (k & -> & Hk).
      apply find_user_absent in Hi.
      eexists; split; [reflexivity | now constructor]. }
  apply find_user_absent in Hi. apply find_user_absent in Hj.
  destruct (Z.ltb_spec (Z.of_nat (length (players ev))) (capacity ev)); simpl.
  { eexists; split; [reflexivity|].
    rewrite length_app, Nat2Z.inj_add. simpl. now constructor. }
  destruct (Z.geb_spec (Z.of_nat (length (waitlist ev))) WAITLIST_CAPACITY); simpl.
  { eexists; split; [reflexivity|]. constructor; try done; lia. }
  eexists; split; [reflexivity|].
  rewrite length_app, Nat2Z.inj_add. simpl. now constructor.
Qed.

(** C1. For every roster and actor, join takes the first branch that
    applies, in the order locked / already confirmed (with the 1-based
    position of the entry) / already waitlisted (with the 1-based waitlist
    position) / room in the confirmed list (the new entry, not privileged,
    is appended and the outcome carries the new length) / room in the
    waitlist (appended, outcome carries the new waitlist length) / full;
    every refusal leaves the roster as it was.  [join_spec] spells the
    branches out; the roster is the one [ensure_event] hands to the
    handler and the entry is stamped with the clock reading taken after
    it. *)
Theorem join_follows_branch_order (w : world) (u : tg_user) :
  exists ev',
    chat_data (snd (handle_join utc u w)) = Some ev' /\
    join_spec (roster_of utc w) u (utc (ticks (snd (ensure_event utc w)))) ev'
      (fst (handle_join utc u w)).
Proof.
  destruct w as [[ev|] n].
  - apply join_stored.
  - destruct (join_stored (default_event (utc n)) (S n) u) as (ev' & H1 & H2).
    exists ev'. split; [exact H1 | exact H2].
Qed.

(** ** Leave *)

Lemma leave_stored (ev : event) (n : nat) (u : tg_user) :
  exists ev',
    chat_data (snd (handle_leave utc u (World (Some ev) n))) = Some ev' /\
    leave_spec ev u ev' (fst (handle_leave utc u (World (Some ev) n))).
Proof.
  run_act.
  destruct (Z.eqb_spec (find_user (players ev) (id u)) (-1)) as [Hi|Hi]; simpl.
  2:{ destruct (find_user_found _ _ Hi) as (k & -> & Hk).
      rewrite Nat2Z.id.
      destruct (waitlist ev) as [|a rest] eqn:Hw; simpl;
        (eexists; split; [reflexivity|]).
      - now apply leave_confirmed_alone.
      - now apply leave_confirmed_promoting. }
  apply find_user_absent in Hi.
  destruct (Z.eqb_spec (find_user (waitlist ev) (id u)) (-1)) as [Hj|Hj]; simpl.
  2:{ destruct (find_user_found _ _ Hj) as (k & -> & Hk).
      rewrite Nat2Z.id. eexists; split; [reflexivity|].
      now apply leave_waitlisted. }
  apply find_user_absent in Hj.
  eexists; split; [reflexivity|]. now apply leave_not_found.
Qed.

(** C2. For every roster and actor, leave removes the actor's entry
    from the confirmed list when it is there and then, when the waitlist
    is not empty, moves the first waitlist entry to the end of the
    confirmed list, the rest of the waitlist keeping its order
    (LEFT_CONFIRMED, reporting the promoted entry if any); else removes the
    actor's entry from the waitlist (LEFT_WAITLIST); else refuses with
    NOT_FOUND and leaves the roster as it was.  With waitlist [a; b; c]
    and a confirmed actor leaving, [a] is promoted and the waitlist
    becomes [b; c]. *)
Theorem leave_follows_spec (w : world) (u : tg_user) :
  exists ev',
    chat_data (snd (handle_leave utc u w)) = Some ev' /\
    leave_spec (roster_of utc w) u ev' (fst (handle_leave utc u w)) /\
    forall a b c : row,
      waitlist (roster_of utc w) = [a; b; c] ->
      id u ∈ ids (players (roster_of utc w)) ->
      fst (handle_leave utc u w) = LEFT_CONFIRMED (Some a) /\
      waitlist ev' = [b; c] /\
      (exists front, players ev' = front ++ [a]) /\
      length (players ev') = length (players (roster_of utc w)).
Proof.
  assert (Hstored : forall ev n,
    exists ev',
      chat_data (snd (handle_leave utc u (World (Some ev) n))) = Some ev' /\
      leave_spec ev u ev' (fst (handle_leave utc u (World (Some ev) n))) /\
      forall a b c : row,
        waitlist ev = [a; b; c] ->
        id u ∈ ids (players ev) ->
        fst (handle_leave utc u (World (Some ev) n)) = LEFT_CONFIRMED (Some a) /\
        waitlist ev' = [b; c] /\
        (exists front, players ev' = front ++ [a]) /\
        length (players ev') = length (players ev)).
  { intros ev n. destruct (leave_stored ev n u) as (ev' & Hc & Hs).
    exists ev'. split; [done|]. split; [done|].
    intros a b c Hw Hin. revert Hs. generalize (fst (handle_leave utc u (World (Some ev) n))).
    intros r Hs. destruct Hs as [k Hk Hw'|k x rest Hk Hw'|k Hn Hk|Hn Hn'];
      try congruence; try tauto.
    rewrite Hw in Hw'. injection Hw' as <- <-. simpl.
    split; [done|]. split; [done|]. split; [eauto|].
    destruct Hk as (k0 & r0 & Hp & Hl & _).
    assert (k0 = k) as -> by lia.
    rewrite length_app, length_delete by eauto. simpl.
    apply lookup_lt_Some in Hl. lia. }
  destruct w as [[ev|] n]; [apply Hstored|].
  destruct (Hstored (default_event (utc n)) (S n)) as (ev' & H1 & H2 & H3).
  exists ev'. split; [exact H1|]. split; [exact H2 | exact H3].
Qed.

(** ** Seeding *)

Lemma vip_rows_loop_spec (names : list string) (cap : Z) (rows : list row)
    (w : world) :
  let k := Z.to_nat (cap - Z.of_nat (length rows)) in
  vip_rows_loop utc names cap rows w =
  (rows ++ imap (fun i nm => vip_row nm (utc (ticks w + i)%nat)) (take k names),
   World (chat_data w) (ticks w + length (take k names))%nat).
Proof.
  revert rows w. induction names as [|nm rest IH]; intros rows w k; simpl.
  - rewrite take_nil. simpl. rewrite app_nil_r, Nat.add_0_r. now destruct w.
  - destruct (Z.geb_spec (Z.of_nat (length rows)) cap) as [Hge|Hlt].
    + assert (k = 0%nat) as -> by lia. simpl.
      rewrite app_nil_r, Nat.add_0_r. now destruct w.
    + assert (exists m, k = S m /\
              m = Z.to_nat (cap - Z.of_nat (length (rows ++ [vip_row nm (utc (ticks w))]))))
        as (m & -> & Hm).
      { exists (Z.to_nat (cap - Z.of_nat (length rows) - 1)).
        rewrite length_app. simpl. lia. }
      unfold bind, now_iso. simpl.
      specialize (IH (rows ++ [vip_row nm (utc (ticks w))])
                     (World (chat_data w) (S (ticks w)))).
      simpl in IH. rewrite <- Hm in IH. unfold vip_row in *. rewrite IH.
      rewrite <- app_assoc. simpl. rewrite Nat.add_0_r.
      f_equal; [|f_equal; lia].
      f_equal. f_equal. apply imap_ext. intros i x _. simpl.
      do 2 f_equal. lia.
Qed.

Lemma vip_rows_spec (cap : Z) (w : world) :
  vip_rows utc cap w =
  (imap (fun i nm => vip_row nm (utc (ticks w + i)%nat))
        (take (Z.to_nat cap) VIP_NAMES),
   World (chat_data w) (ticks w + length (take (Z.to_nat cap) VIP_NAMES))%nat).
Proof.
  unfold vip_rows. rewrite vip_rows_loop_spec. simpl. now rewrite Z.sub_0_r.
Qed.

(** What [/newgame] stores when an admin sends it: the capacity is the
    override, or else the one of the roster in effect, floored to 1; the
    rows are seeded up to the floored capacity and then cut at the
    capacity as given. *)
Lemma newgame_admin (w : world) (args : list string) :
  let cap := requested_capacity py_int args (capacity (roster_of utc w)) in
  let n := ticks (snd (ensure_event utc w)) in
  let seeded := imap (fun i nm => vip_row nm (utc (n + i)%nat))
                     (take (Z.to_nat (Z.max 1 cap)) VIP_NAMES) in
  exists (t : string) (ts : timestamp) (n' : nat),
    newgame py_int title_of_args utc true args w =
    (CREATED t cap,
     World (Some {| title := Some t; capacity := Z.max 1 cap; locked := false;
                    players := slice_to seeded cap; waitlist := [];
                    created_at := ts |}) n').
Proof.
  unfold newgame, requested_capacity, capacity_override, roster_of.
  change (negb true) with false. cbv iota. unfold bind at 1.
  destruct (ensure_event utc w) as [ev w1] eqn:He. simpl fst. simpl snd.
  destruct args as [|a args'].
  - unfold bind, ret, put_event, now_iso. rewrite vip_rows_spec. simpl.
    eauto.
  - destruct (py_int (List.last (a :: args') "")) as [c|] eqn:Hc.
    + unfold bind, ret, put_event, now_iso. rewrite vip_rows_spec.
      cbn [ticks chat_data]. eauto.
    + unfold bind, ret, put_event, now_iso. rewrite vip_rows_spec.
      cbn [ticks chat_data]. eauto.
Qed.

Lemma length_slice_to {A} (lst : list A) (k : Z) :
  (length (slice_to lst k) <= length lst)%nat.
Proof. unfold slice_to. destruct (0 <=? k); rewrite length_take; lia. Qed.

Lemma Forall_slice_to {A} (P : A -> Prop) (lst : list A) (k : Z) :
  Forall P lst -> Forall P (slice_to lst k).
Proof. unfold slice_to. destruct (0 <=? k); apply Forall_take. Qed.

Lemma Forall_vip_rows (f : nat -> nat) (names : list string) :
  Forall (fun r => user_id r = None /\ is_vip r = true)
         (imap (fun i nm => vip_row nm (utc (f i))) names).
Proof.
  revert f. induction names as [|nm rest IH]; intros f; simpl.
  - constructor.
  - constructor; [done|]. apply (IH (f ∘ S)).
Qed.

Lemma ids_reserved (lst : list row) :
  Forall (fun r => user_id r = None /\ is_vip r = true) lst -> ids lst = [].
Proof.
  unfold ids. induction 1 as [|r rest [Hr _] _ IH]; simpl; [done|].
  now rewrite Hr.
Qed.

Lemma ids_sublist (l1 l2 : list row) :
  l1 `sublist_of` l2 -> ids l1 `sublist_of` ids l2.
Proof.
  unfold ids. induction 1 as [|r l1 l2 _ IH|r l1 l2 _ IH]; simpl.
  - constructor.
  - destruct (user_id r); [now constructor | done].
  - destruct (user_id r); [now constructor | done].
Qed.

(** ** Invariants of the roster *)

Lemma roster_of_stored (w : world) (ev : event) :
  chat_data w = Some ev -> roster_of utc w = ev.
Proof. destruct w as [[e|] n]; simpl; intros H; [now injection H | done]. Qed.

Lemma default_within_capacity (ts : timestamp) : within_capacity (default_event ts).
Proof. split; cbv; discriminate. Qed.

Lemma default_distinct_ids (ts : timestamp) : distinct_ids (default_event ts).
Proof. unfold distinct_ids. simpl. constructor. Qed.

Lemma first_at_in_range (lst : list row) (uid : Z) (k : nat) :
  first_at lst uid (Z.of_nat k + 1) -> (k < length lst)%nat.
Proof.
  intros (k0 & r & Hp & Hl & _). assert (k0 = k) as -> by lia.
  now apply lookup_lt_Some in Hl.
Qed.

Lemma join_keeps_capacity ev u ts ev' r :
  join_spec ev u ts ev' r -> within_capacity ev -> within_capacity ev'.
Proof.
  unfold within_capacity.
  intros Hs [Hp Hw]; destruct Hs; simpl; rewrite ?length_app; simpl; lia.
Qed.

Lemma join_keeps_distinct ev u ts ev' r :
  join_spec ev u ts ev' r -> distinct_ids ev -> distinct_ids ev'.
Proof.
  unfold distinct_ids, ids.
  intros Hs Hd; destruct Hs; simpl; try done.
  - rewrite <- app_assoc. simpl. rewrite omap_app. simpl.
    rewrite <- Permutation_middle, <- omap_app. apply NoDup_cons. split; [|done].
    rewrite omap_app, elem_of_app. tauto.
  - rewrite app_assoc, omap_app. simpl.
    rewrite <- Permutation_cons_append. apply NoDup_cons. split; [|done].
    rewrite omap_app, elem_of_app. tauto.
Qed.

Lemma leave_keeps_capacity ev u ev' r :
  leave_spec ev u ev' r -> within_capacity ev -> within_capacity ev'.
Proof.
  unfold within_capacity.
  intros [k Hk Hw0|k a rest Hk Hw0|k Hn Hk|Hn Hn'] [Hp Hw]; simpl.
  - pose proof (sublist_length _ _ (sublist_delete (players ev) k)). lia.
  - apply first_at_in_range in Hk.
    rewrite length_app, length_delete by (apply lookup_lt_is_Some; lia).
    rewrite Hw0 in Hw. simpl in *. lia.
  - pose proof (sublist_length _ _ (sublist_delete (waitlist ev) k)). lia.
  - lia.
Qed.

Lemma leave_keeps_distinct ev u ev' r :
  leave_spec ev u ev' r -> distinct_ids ev -> distinct_ids ev'.
Proof.
  unfold distinct_ids.
  intros [k Hk Hw0|k a rest Hk Hw0|k Hn Hk|Hn Hn'] Hd; simpl; try done.
  - eapply sublist_NoDup; [exact Hd|]. apply ids_sublist.
    apply sublist_app; [apply sublist_delete | done].
  - eapply sublist_NoDup; [exact Hd|]. apply ids_sublist.
    rewrite Hw0, <- app_assoc. simpl.
    apply sublist_app; [apply sublist_delete | done].
  - eapply sublist_NoDup; [exact Hd|]. apply ids_sublist.
    apply sublist_app; [done | apply sublist_delete].
Qed.

Lemma newgame_stores_sound (admin : bool) (args : list string) (w : world) :
  within_capacity (roster_of utc w) /\ distinct_ids (roster_of utc w) ->
  within_capacity (roster_of utc (snd (newgame py_int title_of_args utc admin args w))) /\
  distinct_ids (roster_of utc (snd (newgame py_int title_of_args utc admin args w))).
Proof.
  destruct admin; [|done]. intros _.
  destruct (newgame_admin w args) as (t & ts & n' & ->). simpl.
  split.
  - unfold within_capacity, WAITLIST_CAPACITY. simpl. split; [|lia].
    match goal with
    | |- context [slice_to ?l ?k] => pose proof (length_slice_to l k) as Hs
    end.
    rewrite length_imap, length_take in Hs. lia.
  - unfold distinct_ids. simpl. rewrite app_nil_r, ids_reserved; [constructor|].
    apply Forall_slice_to, (Forall_vip_rows (fun i => _ + i)%nat).
Qed.

(** Every handler keeps both invariants, on a stored roster... *)
Lemma handle_stored_sound (rq : request) (ev : event) (n : nat) :
  within_capacity ev /\ distinct_ids ev ->
  within_capacity (roster_of utc (snd (handle py_int title_of_args utc rq (World (Some ev) n)))) /\
  distinct_ids (roster_of utc (snd (handle py_int title_of_args utc rq (World (Some ev) n)))).
Proof.
  intros [Hc Hd]. destruct rq as [a args|u|u|a|a|a]; simpl.
  - now apply newgame_stores_sound.
  - destruct (join_stored ev n u) as (ev' & He & Hs).
    rewrite (roster_of_stored _ _ He).
    eauto using join_keeps_capacity, join_keeps_distinct.
  - destruct (leave_stored ev n u) as (ev' & He & Hs).
    rewrite (roster_of_stored _ _ He).
    eauto using leave_keeps_capacity, leave_keeps_distinct.
  - destruct a; done.
  - destruct a; done.
  - destruct a; simpl; [|done].
    split; [apply default_within_capacity | apply default_distinct_ids].
Qed.

(** ... and on a chat that has none yet. *)
Lemma handle_sound (rq : request) (w : world) :
  within_capacity (roster_of utc w) /\ distinct_ids (roster_of utc w) ->
  within_capacity (roster_of utc (snd (handle py_int title_of_args utc rq w))) /\
  distinct_ids (roster_of utc (snd (handle py_int title_of_args utc rq w))).
Proof.
  destruct w as [[ev|] n]; [apply handle_stored_sound|].
  intros H.
  destruct rq as [a args|u|u|[]|[]|[]]; try exact H.
  - now apply newgame_stores_sound.
  - exact (handle_stored_sound (Join u) (default_event (utc n)) (S n) H).
Qed.

Lemma run_sound (rqs : list request) (n : nat) :
  within_capacity (roster_of utc (run py_int title_of_args utc rqs (World None n))) /\
  distinct_ids (roster_of utc (run py_int title_of_args utc rqs (World None n))).
Proof.
  induction rqs as [|rq rqs IH] using rev_ind.
  - split; [apply default_within_capacity | apply default_distinct_ids].
  - unfold run in *. rewrite fold_left_app. simpl. now apply handle_sound.
Qed.

(** C3. After any sequence of newgame, join, leave, lock, unlock and
    reset requests, served from a chat without an event, the confirmed
    list is no longer than the roster's capacity and the waitlist no
    longer than the waitlist capacity. *)
Theorem lists_within_capacity (rqs : list request) (n : nat) :
  let ev := roster_of utc (run py_int title_of_args utc rqs (World None n)) in
  Z.of_nat (length (players ev)) <= capacity ev /\
  Z.of_nat (length (waitlist ev)) <= WAITLIST_CAPACITY.
Proof. exact (proj1 (run_sound rqs n)). Qed.

(** C4. After any sequence of requests no identifier is held twice:
    not by two confirmed rows, not by two waitlist rows, and not by a
    confirmed row and a waitlist row.  A reserved row holds no identifier
    ([user_id] is [None]), so the rows seeded for the VIP names do not
    count as sharing one. *)
Theorem identifiers_distinct (rqs : list request) (n : nat) :
  let ev := roster_of utc (run py_int title_of_args utc rqs (World None n)) in
  NoDup (ids (players ev)) /\
  NoDup (ids (waitlist ev)) /\
  forall x : Z, x ∈ ids (players ev) -> x ∉ ids (waitlist ev).
Proof.
  intros ev. pose proof (proj2 (run_sound rqs n)) as Hd.
  unfold distinct_ids, ids in Hd. rewrite omap_app in Hd.
  now apply NoDup_app in Hd.
Qed.

(** ** Creation *)

(** C5, as amended. An admin's newgame is never refused, whatever
    capacity it is given.  With an integer override [c] the new capacity is
    [max 1 c], so for a non-positive [c] it is 1 and not the default
    constant; with no override it is the capacity of the roster stored for
    the chat, floored to 1, and the default constant only when the chat
    has no roster yet. *)
Theorem newgame_capacity_clamped (w : world) (args : list string) :
  let out := newgame py_int title_of_args utc true args w in
  exists (ev' : event) (t : string) (c : Z),
    fst out = CREATED t c /\
    chat_data (snd out) = Some ev' /\
    1 <= capacity ev' /\
    capacity ev' =
      match capacity_override py_int args with
      | Some c => Z.max 1 c
      | None =>
          match chat_data w with
          | Some ev => Z.max 1 (capacity ev)
          | None => DEFAULT_CAPACITY
          end
      end.
Proof.
  intros out. subst out.
  destruct (newgame_admin w args) as (t & ts & n' & ->). simpl.
  eexists _, t, _. split; [reflexivity|]. split; [reflexivity|]. simpl.
  split; [lia|]. unfold requested_capacity.
  destruct (capacity_override py_int args) as [c|]; simpl; [done|].
  now destruct w as [[ev|] n].
Qed.

Lemma names_of_vip_rows (f : nat -> nat) (names : list string) :
  name <$> imap (fun i nm => vip_row nm (utc (f i))) names = names.
Proof.
  revert f. induction names as [|nm rest IH]; intros f; simpl; [done|].
  f_equal. apply (IH (f ∘ S)).
Qed.

(** With a capacity of at least 1, newgame seeds one row per VIP name,
    in order, up to the capacity. *)
Lemma newgame_seeds_when_positive (w : world) (args : list string) :
  1 <= requested_capacity py_int args (capacity (roster_of utc w)) ->
  exists ev',
    chat_data (snd (newgame py_int title_of_args utc true args w)) = Some ev' /\
    name <$> players ev' =
      take (Z.to_nat (Z.min (capacity ev') (Z.of_nat (length VIP_NAMES)))) VIP_NAMES /\
    Forall (fun r => user_id r = None /\ is_vip r = true) (players ev') /\
    locked ev' = false /\ waitlist ev' = [].
Proof.
  intros Hc. destruct (newgame_admin w args) as (t & ts & n' & ->).
  eexists. split; [reflexivity|]. cbn [players capacity locked waitlist].
  set (cap := requested_capacity _ _ _) in *.
  split; [|split; [|done]].
  - unfold slice_to. destruct (Z.leb_spec 0 cap); [|lia].
    rewrite Z.max_r by lia.
    rewrite fmap_take, names_of_vip_rows, take_take, Nat.min_id.
    destruct (Z.le_gt_cases cap (Z.of_nat (length VIP_NAMES))).
    + now rewrite Z.min_l by lia.
    + rewrite Z.min_r, Nat2Z.id by lia. rewrite firstn_all.
      apply take_ge. lia.
  - apply Forall_slice_to, (Forall_vip_rows (fun i => _ + i)%nat).
Qed.

(** With a non-positive override the capacity is floored to 1 and no
    row is seeded: the rows are cut at the capacity as given. *)
Lemma newgame_nonpositive_seeds_nothing (w : world) (args : list string) (c : Z) :
  capacity_override py_int args = Some c -> c <= 0 ->
  exists ev',
    chat_data (snd (newgame py_int title_of_args utc true args w)) = Some ev' /\
    capacity ev' = 1 /\ players ev' = [].
Proof.
  intros Ho Hc. destruct (newgame_admin w args) as (t & ts & n' & ->).
  unfold requested_capacity. rewrite Ho. eexists. split; [reflexivity|].
  cbn [players capacity]. split; [lia|].
  rewrite Z.max_l by lia. unfold slice_to, VIP_NAMES. simpl take. simpl imap.
  destruct (Z.leb_spec 0 c).
  - assert (c = 0) as -> by lia. reflexivity.
  - simpl length. now replace (Z.to_nat (Z.of_nat 1 + c)) with 0%nat by lia.
Qed.

(** ** Admin gate *)

(** C7. Newgame, lock, unlock and reset sent by a caller who is not an
    admin are refused with FORBIDDEN and change nothing. *)
Theorem admin_gate_refuses (w : world) (args : list string) :
  newgame py_int title_of_args utc false args w = (FORBIDDEN, w) /\
  lock_cmd utc false w = (FORBIDDEN, w) /\
  unlock_cmd utc false w = (FORBIDDEN, w) /\
  reset_cmd utc false w = (FORBIDDEN, w).
Proof. repeat split. Qed.

(** ** Reset *)

(** C8. Whatever the chat held, after an admin's reset the world is
    the one first access produces from a chat without an event at the same
    clock reading: the roster has no title, the default capacity, no
    confirmed row, no waitlist row, and is unlocked. *)
Theorem reset_is_first_access (w : world) :
  snd (reset_cmd utc true w) = snd (ensure_event utc (World None (ticks w))) /\
  roster_of utc (snd (reset_cmd utc true w)) = roster_of utc (World None (ticks w)) /\
  title (roster_of utc (snd (reset_cmd utc true w))) = None /\
  capacity (roster_of utc (snd (reset_cmd utc true w))) = DEFAULT_CAPACITY /\
  players (roster_of utc (snd (reset_cmd utc true w))) = [] /\
  waitlist (roster_of utc (snd (reset_cmd utc true w))) = [] /\
  locked (roster_of utc (snd (reset_cmd utc true w))) = false.
Proof. repeat split. Qed.

(** ** Lock and unlock *)

Lemma set_locked_twice (b : bool) (ev : event) :
  set_locked b (set_locked b ev) = set_locked b ev.
Proof. reflexivity. Qed.

(** C9. Lock sent twice leaves the world that lock sent once leaves,
    and so does unlock; locking a roster that is locked already is
    answered like any lock and changes nothing. *)
Theorem lock_unlock_idempotent (admin : bool) (w : world) :
  snd (lock_cmd utc admin (snd (lock_cmd utc admin w))) = snd (lock_cmd utc admin w) /\
  snd (unlock_cmd utc admin (snd (unlock_cmd utc admin w))) = snd (unlock_cmd utc admin w) /\
  lock_cmd utc true (snd (lock_cmd utc true w)) = (LOCK_OK, snd (lock_cmd utc true w)) /\
  unlock_cmd utc true (snd (unlock_cmd utc true w)) = (UNLOCK_OK, snd (unlock_cmd utc true w)) /\
  locked (roster_of utc (snd (lock_cmd utc true w))) = true /\
  locked (roster_of utc (snd (unlock_cmd utc true w))) = false.
Proof.
  destruct w as [[ev|] n]; destruct admin; repeat split.
Qed.

(** ** Reserved rows and join *)

Lemma join_refusal_names_holder (w : world) (u : tg_user) (p : Z) :
  fst (handle_join utc u w) = ALREADY_CONFIRMED p \/
  fst (handle_join utc u w) = ALREADY_WAITLISTED p ->
  exists r : row,
    r ∈ players (roster_of utc w) ++ waitlist (roster_of utc w) /\
    user_id r = Some (id u).
Proof.
  assert (Hstored : forall ev n,
    fst (handle_join utc u (World (Some ev) n)) = ALREADY_CONFIRMED p \/
    fst (handle_join utc u (World (Some ev) n)) = ALREADY_WAITLISTED p ->
    exists r : row, r ∈ players ev ++ waitlist ev /\ user_id r = Some (id u)).
  { intros ev n. destruct (join_stored ev n u) as (ev' & _ & Hs). revert Hs.
    generalize (fst (handle_join utc u (World (Some ev) n))). intros r Hs Hr.
    destruct Hs as [|q _ Hq|q _ _ Hq| | |];
      try (destruct Hr; discriminate);
      destruct Hq as (k & r0 & _ & Hl & Hu & _);
      exists r0; (split; [|done]); apply elem_of_app;
      [left | right]; apply list_elem_of_lookup; eauto. }
  destruct w as [[ev|] n]; [apply Hstored|].
  exact (Hstored (default_event (utc n)) (S n)).
Qed.

(** C10. A refusal of join for being listed already is always owed to
    a row that carries the actor's own identifier, so never to a reserved
    row, whose [user_id] is [None].  On the roster an admin's newgame has
    just stored, all rows are reserved ones and [find_user] finds no
    actor; join then appends a new row for the actor, not marked VIP, to
    the confirmed list or, if that is full, to the waitlist, and a
    reserved row with the actor's display name stays next to it. *)
Theorem reserved_rows_never_block_join
    (w0 w : world) (args : list string) (u : tg_user) :
  let w1 := snd (newgame py_int title_of_args utc true args w) in
  let ev1 := roster_of utc w1 in
  let out := handle_join utc u w1 in
  let ev2 := roster_of utc (snd out) in
  let entry := joined_row u (utc (ticks w1)) in
  (forall p : Z,
     fst (handle_join utc u w0) = ALREADY_CONFIRMED p \/
     fst (handle_join utc u w0) = ALREADY_WAITLISTED p ->
     exists r : row,
       r ∈ players (roster_of utc w0) ++ waitlist (roster_of utc w0) /\
       user_id r = Some (id u)) /\
  Forall (fun r => user_id r = None /\ is_vip r = true) (players ev1) /\
  find_user (players ev1) (id u) = -1 /\
  find_user (waitlist ev1) (id u) = -1 /\
  (fst out = CONFIRMED (Z.of_nat (length (players ev1)) + 1) /\
     players ev2 = players ev1 ++ [entry] /\ waitlist ev2 = []
   \/
   fst out = WAITLISTED 1 /\
     players ev2 = players ev1 /\ waitlist ev2 = [entry]) /\
  (forall v : row,
     v ∈ players ev1 -> name v = full_name u ->
     v ∈ players ev2 /\ entry ∈ players ev2 ++ waitlist ev2 /\ v <> entry).
Proof.
  cbv zeta. split; [intros p; apply join_refusal_names_holder|].
  destruct (newgame_admin w args) as (t & ts & n' & ->).
  cbn [snd ticks]. set (ev1 := Event _ _ _ _ _ _).
  change (roster_of utc (World (Some ev1) n')) with ev1.
  assert (Hres : Forall (fun r => user_id r = None /\ is_vip r = true) (players ev1)).
  { apply Forall_slice_to, (Forall_vip_rows (fun i => _ + i)%nat). }
  assert (Hids : ids (players ev1) = []) by now apply ids_reserved.
  assert (Hp : find_user (players ev1) (id u) = -1).
  { apply find_user_absent. rewrite Hids. apply not_elem_of_nil. }
  split; [done|]. split; [done|]. split; [reflexivity|].
  destruct (join_stored ev1 n' u) as (ev2 & He & Hs).
  rewrite (roster_of_stored _ _ He). revert Hs.
  generalize (fst (handle_join utc u (World (Some ev1) n'))). intros r Hs.
  assert (Hout :
    r = CONFIRMED (Z.of_nat (length (players ev1)) + 1) /\
      players ev2 = players ev1 ++ [joined_row u (utc n')] /\ waitlist ev2 = []
    \/
    r = WAITLISTED 1 /\
      players ev2 = players ev1 /\ waitlist ev2 = [joined_row u (utc n')]).
  { destruct Hs as [Hl|q _ Hq|q _ _ Hq| | |_ _ _ _ Hfull].
    - discriminate Hl.
    - apply first_at_present in Hq. rewrite Hids in Hq. now apply elem_of_nil in Hq.
    - apply first_at_present in Hq. now apply elem_of_nil in Hq.
    - left. done.
    - right. done.
    - exfalso. revert Hfull. cbv. tauto. }
  split; [exact Hout|].
  intros v Hv Hname.
  assert (Hne : v <> joined_row u (utc n')).
  { intros ->. rewrite Forall_forall in Hres. now destruct (Hres _ Hv). }
  destruct Hout as [(_ & -> & ->) | (_ & -> & ->)].
  - rewrite app_nil_r. split; [|split; [|done]]; apply elem_of_app.
    + now left.
    + right. apply list_elem_of_singleton. reflexivity.
  - split; [done|]. split; [|done]. apply elem_of_app. right.
    apply list_elem_of_singleton. reflexivity.
Qed.

End Properties.

(** * Further properties of the handlers *)

Section Further.

Variable py_int : string -> option Z.
Variable title_of_args : list string -> string.
Variable utc : nat -> timestamp.
Variable html_escape : string -> string.

(** ** Searching *)

(** X1. [find_user] answers -1 exactly when no row carries the id, and
    otherwise the index of the first row that does. *)
Theorem find_user_first_match (lst : list row) (uid : Z) :
  (find_user lst uid = -1 /\ uid ∉ ids lst) \/
  (exists (k : nat) (r : row),
     find_user lst uid = Z.of_nat k /\ lst !! k = Some r /\
     user_id r = Some uid /\ uid ∉ ids (take k lst)).
Proof.
  destruct (Z.eq_dec (find_user lst uid) (-1)) as [He|Hne].
  - left. split; [done|]. now apply find_user_absent.
  - right. destruct (find_user_found _ _ Hne) as (k & Hk & k0 & r & Hp & Hl & Hu & Hb).
    assert (k0 = k) as -> by lia.
    exists k, r. split; [done|]. split; [done|]. split; [done|].
    intros (r' & Hin & Hr')%list_elem_of_omap.
    apply list_elem_of_lookup in Hin as [k' Hk'].
    pose proof (lookup_lt_Some _ _ _ Hk') as Hlt. rewrite length_take in Hlt.
    rewrite lookup_take_lt in Hk' by lia.
    apply (Hb k' r'); [lia | done | done].
Qed.

Lemma first_at_appended (lst : list row) (r : row) (uid : Z) :
  uid ∉ ids lst -> user_id r = Some uid ->
  first_at (lst ++ [r]) uid (Z.of_nat (length lst) + 1).
Proof.
  intros Hn Hr. exists (length lst), r. split; [done|].
  split; [apply list_lookup_middle; done|]. split; [done|].
  intros k' r' Hlt Hl Hu. apply Hn, list_elem_of_omap. exists r'.
  split; [|done]. rewrite lookup_app_l in Hl by done.
  apply list_elem_of_lookup. eauto.
Qed.

(** ** Seeding and first access *)

Lemma stamps_of_vip_rows (f : nat -> nat) (names : list string) :
  joined_at <$> imap (fun i nm => vip_row nm (utc (f i))) names
  = (fun i => utc (f i)) <$> seq 0 (length names).
Proof.
  revert f. induction names as [|nm rest IH]; intros f; simpl; [done|].
  f_equal. rewrite <- fmap_S_seq, <- list_fmap_compose. apply (IH (f ∘ S)).
Qed.

(** X2. [vip_rows] reserves a row for each of the first [cap] VIP names, in
    order (none for a [cap] of 0 or less), stamps them with successive
    clock readings, and leaves the stored event alone. *)
Theorem vip_rows_shape (cap : Z) (w : world) :
  let rows := fst (vip_rows utc cap w) in
  let w' := snd (vip_rows utc cap w) in
  name <$> rows = take (Z.to_nat cap) VIP_NAMES /\
  Forall (fun r => user_id r = None /\ is_vip r = true) rows /\
  joined_at <$> rows = utc <$> seq (ticks w) (length rows) /\
  chat_data w' = chat_data w /\
  ticks w' = (ticks w + length rows)%nat.
Proof.
  rewrite vip_rows_spec. cbn [fst snd chat_data ticks].
  split; [apply (names_of_vip_rows utc (fun i => _ + i)%nat)|].
  split; [apply (Forall_vip_rows utc (fun i => _ + i)%nat)|].
  split; [|split; [done | now rewrite length_imap]].
  rewrite (stamps_of_vip_rows (fun i => _ + i)%nat), length_imap.
  generalize (length (take (Z.to_nat cap) VIP_NAMES)) as k. intros k.
  assert (seq (ticks w) k = Nat.add (ticks w) <$> seq 0 k) as ->
    by (rewrite fmap_add_seq; f_equal; lia).
  now rewrite <- list_fmap_compose.
Qed.

(** X3. A second [ensure_event] finds what the first stored: it answers the
    same event and changes nothing more. *)
Theorem ensure_event_settles (w : world) :
  ensure_event utc (snd (ensure_event utc w)) = ensure_event utc w.
Proof. destruct w as [[ev|] n]; reflexivity. Qed.

(** ** Join, further *)

Lemma join_refines (w : world) (u : tg_user) :
  exists ev',
    chat_data (snd (handle_join utc u w)) = Some ev' /\
    join_spec (roster_of utc w) u (utc (ticks (snd (ensure_event utc w)))) ev'
      (fst (handle_join utc u w)).
Proof.
  destruct w as [[ev|] n]; [apply join_stored|].
  exact (join_stored utc (default_event (utc n)) (S n) u).
Qed.

(** One join: the lists before are prefixes of the lists after, at most
    one row is added, and the settings stay. *)
Lemma join_appends (w : world) (u : tg_user) :
  let ev := roster_of utc w in
  let ev' := roster_of utc (snd (handle_join utc u w)) in
  players ev `prefix_of` players ev' /\
  waitlist ev `prefix_of` waitlist ev' /\
  (length (players ev' ++ waitlist ev') <= S (length (players ev ++ waitlist ev)))%nat /\
  title ev' = title ev /\ capacity ev' = capacity ev /\
  locked ev' = locked ev /\ created_at ev' = created_at ev.
Proof.
  cbv zeta. destruct (join_refines w u) as (ev' & He & Hs).
  rewrite (roster_of_stored utc _ _ He). revert Hs.
  generalize (fst (handle_join utc u w)), (roster_of utc w). intros r ev Hs.
  destruct Hs; simpl; rewrite ?length_app; simpl;
    (split; [try done; now apply prefix_app_r|]);
    (split; [try done; now apply prefix_app_r|]);
    (split; [lia | done]).
Qed.

(** X4. Joining again right away is refused and changes nothing: who was
    just confirmed at [p] is told so with the same [p], who was just
    waitlisted likewise, and a refusal is repeated. *)
Theorem join_again_is_refused (w : world) (u : tg_user) :
  let w1 := snd (handle_join utc u w) in
  fst (handle_join utc u w1) =
    match fst (handle_join utc u w) with
    | CONFIRMED p => ALREADY_CONFIRMED p
    | WAITLISTED p => ALREADY_WAITLISTED p
    | r => r
    end /\
  chat_data (snd (handle_join utc u w1)) = chat_data w1.
Proof.
  cbv zeta. destruct (join_refines w u) as (ev1 & He & Hs).
  destruct (snd (handle_join utc u w)) as [cd n1] eqn:Hw1. simpl in He. subst cd.
  destruct (join_stored utc ev1 n1 u) as (ev2 & He2 & Hs2). rewrite He2.
  revert Hs Hs2.
  generalize (fst (handle_join utc u w)), (roster_of utc w),
    (utc (ticks (snd (ensure_event utc w)))),
    (fst (handle_join utc u (World (Some ev1) n1))).
  intros r ev ts r2 Hs Hs2.
  assert (Hgoal : join_spec ev1 u (utc n1) ev1
            match r with
            | CONFIRMED p => ALREADY_CONFIRMED p
            | WAITLISTED p => ALREADY_WAITLISTED p
            | r => r
            end).
  { destruct Hs.
    - now constructor.
    - now constructor.
    - now constructor.
    - apply join_already_confirmed; [done|]. simpl.
      now apply first_at_appended.
    - apply join_already_waitlisted; [done | done |]. simpl.
      now apply first_at_appended.
    - now constructor. }
  destruct (join_spec_functional _ _ _ _ _ _ _ Hs2 Hgoal) as [-> ->].
  split; [now destruct r | done].
Qed.

(** X5. The position join reports is where the row is: after CONFIRMED [p]
    the actor's new row is the last of the confirmed list, at position [p]
    within the capacity; after WAITLISTED [p] it is the last of the
    waitlist, within the waitlist capacity; and ALREADY_CONFIRMED [p] or
    ALREADY_WAITLISTED [p] points at a row carrying the actor's id. *)
Theorem join_reports_the_row (w : world) (u : tg_user) :
  let ev' := roster_of utc (snd (handle_join utc u w)) in
  let entry := joined_row u (utc (ticks (snd (ensure_event utc w)))) in
  match fst (handle_join utc u w) with
  | CONFIRMED p =>
      1 <= p <= capacity ev' /\ p = Z.of_nat (length (players ev')) /\
      players ev' !! Z.to_nat (p - 1) = Some entry
  | WAITLISTED p =>
      1 <= p <= WAITLIST_CAPACITY /\ p = Z.of_nat (length (waitlist ev')) /\
      waitlist ev' !! Z.to_nat (p - 1) = Some entry
  | ALREADY_CONFIRMED p =>
      1 <= p <= Z.of_nat (length (players ev')) /\
      user_id <$> players ev' !! Z.to_nat (p - 1) = Some (Some (id u))
  | ALREADY_WAITLISTED p =>
      1 <= p <= Z.of_nat (length (waitlist ev')) /\
      user_id <$> waitlist ev' !! Z.to_nat (p - 1) = Some (Some (id u))
  | _ => True
  end.
Proof.
  cbv zeta. destruct (join_refines w u) as (ev' & He & Hs).
  rewrite (roster_of_stored utc _ _ He). revert Hs.
  generalize (fst (handle_join utc u w)), (roster_of utc w),
    (utc (ticks (snd (ensure_event utc w)))).
  intros r ev ts Hs.
  destruct Hs as [|p _ Hp|p _ _ Hp|_ _ _ Hlt|_ _ _ _ Hlt|]; try done.
  - destruct Hp as (k & r0 & -> & Hl & Hu & _).
    pose proof (lookup_lt_Some _ _ _ Hl).
    replace (Z.to_nat (Z.of_nat k + 1 - 1)) with k by lia.
    rewrite Hl. split; [lia|]. simpl. now rewrite Hu.
  - destruct Hp as (k & r0 & -> & Hl & Hu & _).
    pose proof (lookup_lt_Some _ _ _ Hl).
    replace (Z.to_nat (Z.of_nat k + 1 - 1)) with k by lia.
    rewrite Hl. split; [lia|]. simpl. now rewrite Hu.
  - simpl. rewrite length_app. simpl.
    split; [lia|]. split; [lia|].
    replace (Z.to_nat (Z.of_nat (length (players ev)) + 1 - 1))
      with (length (players ev)) by lia.
    now apply list_lookup_middle.
  - simpl. rewrite length_app. simpl.
    split; [lia|]. split; [lia|].
    replace (Z.to_nat (Z.of_nat (length (waitlist ev)) + 1 - 1))
      with (length (waitlist ev)) by lia.
    now apply list_lookup_middle.
Qed.

(** ** Lock, unlock and join *)

(** X6. Once an admin has locked the list, join is answered LOCKED and
    changes nothing; unlocking after locking leaves what unlocking alone
    leaves, and locking after unlocking what locking alone leaves. *)
Theorem lock_blocks_join (w : world) (u : tg_user) :
  handle_join utc u (snd (lock_cmd utc true w))
  = (LOCKED, snd (lock_cmd utc true w)) /\
  snd (unlock_cmd utc true (snd (lock_cmd utc true w)))
  = snd (unlock_cmd utc true w) /\
  snd (lock_cmd utc true (snd (unlock_cmd utc true w)))
  = snd (lock_cmd utc true w).
Proof. destruct w as [[ev|] n]; repeat split. Qed.

(** ** Runs without leave *)

Lemma run_cons (rq : request) (rqs : list request) (w : world) :
  run py_int title_of_args utc (rq :: rqs) w
  = run py_int title_of_args utc rqs (snd (handle py_int title_of_args utc rq w)).
Proof. reflexivity. Qed.

Lemma lock_keeps_rows (b admin : bool) (w : world) :
  let w' := snd ((if b then lock_cmd utc admin else unlock_cmd utc admin) w) in
  players (roster_of utc w') = players (roster_of utc w) /\
  waitlist (roster_of utc w') = waitlist (roster_of utc w) /\
  capacity (roster_of utc w') = capacity (roster_of utc w) /\
  title (roster_of utc w') = title (roster_of utc w).
Proof. destruct w as [[ev|] n], b, admin; repeat split. Qed.

(** X7. Joins, locks and unlocks, in any number and order, never remove or
    reorder a row and never change capacity or title: the confirmed list
    and the waitlist before are prefixes of the ones after.  So the rows
    reserved by newgame stay at the head of the list. *)
Theorem rows_stay_under_joins (rqs : list request) (w : world) :
  forallb adds_only rqs = true ->
  let ev := roster_of utc w in
  let ev' := roster_of utc (run py_int title_of_args utc rqs w) in
  players ev `prefix_of` players ev' /\
  waitlist ev `prefix_of` waitlist ev' /\
  capacity ev' = capacity ev /\ title ev' = title ev.
Proof.
  revert w. induction rqs as [|rq rqs IH]; intros w Hq; cbv zeta.
  - done.
  - simpl in Hq. apply andb_prop in Hq as [Hrq Hq].
    rewrite run_cons.
    specialize (IH (snd (handle py_int title_of_args utc rq w)) Hq). cbv zeta in IH.
    destruct IH as (Hp & Hw & Hc & Ht).
    assert (Hstep :
      players (roster_of utc w) `prefix_of`
        players (roster_of utc (snd (handle py_int title_of_args utc rq w))) /\
      waitlist (roster_of utc w) `prefix_of`
        waitlist (roster_of utc (snd (handle py_int title_of_args utc rq w))) /\
      capacity (roster_of utc (snd (handle py_int title_of_args utc rq w)))
        = capacity (roster_of utc w) /\
      title (roster_of utc (snd (handle py_int title_of_args utc rq w)))
        = title (roster_of utc w)).
    { destruct rq as [a args|u|u|a|a|a]; try discriminate Hrq; simpl.
      - destruct (join_appends w u) as (H1 & H2 & _ & H3 & H4 & _). done.
      - destruct (lock_keeps_rows true a w) as (-> & -> & -> & ->). done.
      - destruct (lock_keeps_rows false a w) as (-> & -> & -> & ->). done. }
    destruct Hstep as (Hp' & Hw' & Hc' & Ht').
    split; [now transitivity (players (roster_of utc (snd (handle py_int title_of_args utc rq w))))|].
    split; [now transitivity (waitlist (roster_of utc (snd (handle py_int title_of_args utc rq w))))|].
    split; congruence.
Qed.

Lemma overflow_step (rq : request) (w : world) :
  not_leave rq = true ->
  waitlist (roster_of utc w) = [] \/
    capacity (roster_of utc w) <= Z.of_nat (length (players (roster_of utc w))) ->
  waitlist (roster_of utc (snd (handle py_int title_of_args utc rq w))) = [] \/
    capacity (roster_of utc (snd (handle py_int title_of_args utc rq w)))
    <= Z.of_nat (length (players (roster_of utc (snd (handle py_int title_of_args utc rq w))))).
Proof.
  intros Hrq Hw. destruct rq as [a args|u|u|a|a|a]; try discriminate Hrq; simpl.
  - destruct a; [|done].
    destruct (newgame_admin py_int title_of_args utc w args) as (t & ts & n' & ->).
    now left.
  - destruct (join_refines w u) as (ev' & He & Hs).
    rewrite (roster_of_stored utc _ _ He). revert Hs Hw.
    generalize (fst (handle_join utc u w)), (roster_of utc w),
      (utc (ticks (snd (ensure_event utc w)))).
    intros r ev ts Hs Hw. destruct Hs; simpl; try done.
    + destruct Hw as [Hw|Hw]; [now left | lia].
    + right. lia.
  - now destruct (lock_keeps_rows true a w) as (-> & -> & -> & _).
  - now destruct (lock_keeps_rows false a w) as (-> & -> & -> & _).
  - destruct a; [now left | done].
Qed.

(** X8. As long as nobody leaves, nobody waits while a slot is free: after
    any sequence of newgame, join, lock, unlock and reset requests the
    waitlist is empty or the confirmed list has reached the capacity. *)
Theorem nobody_waits_while_a_slot_is_free (rqs : list request) (n : nat) :
  forallb not_leave rqs = true ->
  let ev := roster_of utc (run py_int title_of_args utc rqs (World None n)) in
  waitlist ev = [] \/ capacity ev <= Z.of_nat (length (players ev)).
Proof.
  cbv zeta. induction rqs as [|rq rqs IH] using rev_ind; intros Hq.
  - now left.
  - rewrite forallb_app in Hq. apply andb_prop in Hq as [Hq Hrq].
    simpl in Hrq. rewrite andb_true_r in Hrq.
    unfold run in *. rewrite fold_left_app. simpl.
    apply overflow_step; [done | now apply IH].
Qed.

(** ** Newgame and reset, further *)

Lemma newgame_stores (w : world) (args : list string) :
  let c := requested_capacity py_int args (capacity (roster_of utc w)) in
  let t := match title_tokens py_int args with
           | [] => or_else (title (roster_of utc w)) "Next Game"
           | _ :: _ => title_of_args (title_tokens py_int args)
           end in
  exists (seeded : list row) (ts : timestamp) (n' : nat),
    newgame py_int title_of_args utc true args w =
    (CREATED t c,
     World (Some {| title := Some t; capacity := Z.max 1 c; locked := false;
                    players := slice_to seeded c; waitlist := [];
                    created_at := ts |}) n').
Proof.
  cbv zeta.
  unfold newgame, requested_capacity, title_tokens, capacity_override, roster_of.
  change (negb true) with false. cbv iota. unfold bind at 1.
  destruct (ensure_event utc w) as [ev w1]. cbn [fst snd].
  destruct args as [|a args'].
  - unfold bind, ret, put_event, now_iso. rewrite vip_rows_spec. simpl. eauto.
  - destruct (py_int (List.last (a :: args') "")) as [c|].
    + unfold bind, ret, put_event, now_iso. rewrite vip_rows_spec.
      cbn [fst snd ticks chat_data].
      destruct (removelast (a :: args')); eauto.
    + unfold bind, ret, put_event, now_iso. rewrite vip_rows_spec.
      cbn [fst snd ticks chat_data]. eauto.
Qed.

(** X9. An admin's newgame announces the title and the capacity it was
    given, and stores the title with the capacity floored to 1, unlocked
    and with an empty waitlist.  The title is made of the tokens before a
    trailing capacity; when there are none, the title of the roster in
    effect is kept, or "Next Game" when it has none. *)
Theorem newgame_announcement (w : world) (args : list string) :
  let out := newgame py_int title_of_args utc true args w in
  let c := requested_capacity py_int args (capacity (roster_of utc w)) in
  let t := match title_tokens py_int args with
           | [] => or_else (title (roster_of utc w)) "Next Game"
           | _ :: _ => title_of_args (title_tokens py_int args)
           end in
  fst out = CREATED t c /\
  exists ev',
    chat_data (snd out) = Some ev' /\
    title ev' = Some t /\ capacity ev' = Z.max 1 c /\
    locked ev' = false /\ waitlist ev' = [].
Proof.
  cbv zeta. destruct (newgame_stores w args) as (seeded & ts & n' & ->).
  split; [done|]. eexists. repeat split.
Qed.

(** X10. Newgame starts over: what it answers and stores depends on the
    roster in effect only through its title and capacity, not on who was
    confirmed or waiting, nor on the lock. *)
Theorem newgame_forgets_the_lists (args : list string)
    (t : option string) (c : Z) (n : nat)
    (b1 b2 : bool) (p1 p2 w1 w2 : list row) (s1 s2 : timestamp) :
  newgame py_int title_of_args utc true args (World (Some (Event t c b1 p1 w1 s1)) n)
  = newgame py_int title_of_args utc true args (World (Some (Event t c b2 p2 w2 s2)) n).
Proof.
  unfold newgame. change (negb true) with false. cbv iota.
  unfold bind, ret, get_event, put_event, now_iso, ensure_event. simpl.
  destruct args as [|a args']; [|destruct (py_int (List.last (a :: args') ""))];
    rewrite !vip_rows_spec; reflexivity.
Qed.

(** X11. After an admin's reset the first actor to join is confirmed as
    number 1 of a list of the default capacity: reset, unlike newgame,
    reserves no row. *)
Theorem reset_then_join (w : world) (u : tg_user) :
  let w1 := snd (reset_cmd utc true w) in
  fst (handle_join utc u w1) = CONFIRMED 1 /\
  players (roster_of utc (snd (handle_join utc u w1)))
  = [joined_row u (utc (S (ticks w)))] /\
  waitlist (roster_of utc (snd (handle_join utc u w1))) = [] /\
  capacity (roster_of utc (snd (handle_join utc u w1))) = DEFAULT_CAPACITY.
Proof. destruct w as [cd n]. repeat split. Qed.

(** ** Keyboard and buttons *)

(** X12. The keyboard always has the three rows join, leave, list, and its
    first button follows the lock: on a locked roster it carries "noop"
    and pressing it sends and changes nothing; on an unlocked roster it
    carries "join" and pressing it is a join. *)
Theorem first_button_follows_lock (ev : event) (n : nat) (u : tg_user) :
  exists (b : button) (rest : keyboard),
    make_keyboard (locked ev) = [b] :: rest /\
    callback_data <$> concat (make_keyboard (locked ev))
    = [if locked ev then "noop" else "join"; "leave"; "list"] /\
    on_button html_escape utc (callback_data b) u (World (Some ev) n)
    = if locked ev then (None, World (Some ev) n)
      else (Some (Said (fst (handle_join utc u (World (Some ev) n)))),
            snd (handle_join utc u (World (Some ev) n))).
Proof.
  destruct (locked ev) eqn:Hl; simpl; eexists _, _; (split; [reflexivity|]);
    (split; [reflexivity|]).
  - reflexivity.
  - unfold on_button. simpl. unfold bind at 1.
    now destruct (handle_join utc u (World (Some ev) n)).
Qed.

(** X13. A button whose data is none of "join", "leave" and "list" sends
    nothing and changes nothing, not even creating the default event. *)
Theorem unknown_button_does_nothing (data : string) (u : tg_user) (w : world) :
  data <> "join" -> data <> "leave" -> data <> "list" ->
  on_button html_escape utc data u w = (None, w).
Proof.
  intros H1 H2 H3. unfold on_button.
  destruct (decide (data = "join")) as [|_]; [done|].
  destruct (decide (data = "leave")) as [|_]; [done|].
  destruct (decide (data = "list")) as [|_]; [done|].
  reflexivity.
Qed.

(** ** Listing *)

(** X14. [/start], [/list] and the list button never change a stored
    roster; on a chat without one they store the default roster, exactly
    as first access does.  They show the keyboard of the lock state, and
    the two listings send the same text. *)
Theorem listing_keeps_roster (w : world) (u : tg_user) :
  snd (list_cmd html_escape utc w) = snd (ensure_event utc w) /\
  snd (start utc w) = snd (ensure_event utc w) /\
  snd (on_button html_escape utc "list" u w) = snd (ensure_event utc w) /\
  roster_of utc (snd (ensure_event utc w)) = roster_of utc w /\
  fst (list_cmd html_escape utc w)
  = Roster (format_roster html_escape (roster_of utc w))
           (make_keyboard (locked (roster_of utc w))) /\
  fst (on_button html_escape utc "list" u w) = Some (fst (list_cmd html_escape utc w)) /\
  fst (start utc w) = Help start_text (make_keyboard (locked (roster_of utc w))).
Proof. destruct w as [[ev|] n]; repeat split. Qed.

Lemma roster_lines_player (ev : event) (k : nat) (r : row) :
  players ev !! k = Some r ->
  roster_lines html_escape ev !! (4 + k)%nat = Some (player_line html_escape (S k) r).
Proof.
  intros Hk. unfold roster_lines.
  destruct (players ev) as [|p ps] eqn:Hp; [done|]. cbv zeta.
  set (body := imap _ (p :: ps)).
  assert (Hb : body !! k = Some (player_line html_escape (S k) r)).
  { subst body. rewrite list_lookup_imap, Hk. reflexivity. }
  destruct (waitlist ev).
  - rewrite lookup_app_r by (simpl; lia). simpl. now rewrite Nat.sub_0_r.
  - rewrite <- !app_assoc. rewrite lookup_app_r by (simpl; lia).
    simpl length. replace (4 + k - 4)%nat with k by lia.
    rewrite lookup_app_l; [done|]. now apply lookup_lt_Some in Hb.
Qed.

Lemma roster_lines_waiting (ev : event) (k : nat) (r : row) :
  waitlist ev !! k = Some r ->
  roster_lines html_escape ev !! (6 + Nat.max 1 (length (players ev)) + k)%nat
  = Some (wait_line html_escape (S k) r).
Proof.
  intros Hk. unfold roster_lines.
  destruct (waitlist ev) as [|q qs] eqn:Hq; [done|]. cbv zeta.
  set (tail := imap _ (q :: qs)).
  assert (Hb : tail !! k = Some (wait_line html_escape (S k) r)).
  { subst tail. rewrite list_lookup_imap, Hk. reflexivity. }
  destruct (players ev) as [|p ps].
  - rewrite lookup_app_r by (simpl; lia). simpl. now rewrite Nat.sub_0_r.
  - rewrite lookup_app_r by (rewrite !length_app, length_imap; simpl; lia).
    rewrite !length_app, length_imap. simpl length.
    replace (6 + Nat.max 1 (S (length ps)) + k - (4 + S (length ps) + 2))%nat
      with k by lia.
    done.
Qed.

(** X15. The roster text has four header lines, one line per confirmed row
    (one, saying so, when there is none), and, only when somebody waits,
    two more header lines and one line per waitlist row. *)
Theorem roster_lines_count (ev : event) :
  length (roster_lines html_escape ev)
  = (4 + Nat.max 1 (length (players ev))
     + match waitlist ev with
       | [] => 0
       | _ :: _ => 2 + length (waitlist ev)
       end)%nat.
Proof.
  unfold roster_lines.
  destruct (players ev) as [|p ps], (waitlist ev) as [|q qs];
    rewrite ?length_app, ?length_imap; simpl; lia.
Qed.

(** X16. What join says is what the listing shows: after CONFIRMED [p] the
    roster text lists the actor's name on the confirmed line numbered [p],
    without the VIP tag, and after WAITLISTED [p] on the waitlist line
    numbered [p]. *)
Theorem listing_shows_the_joined (w : world) (u : tg_user) :
  let ev' := roster_of utc (snd (handle_join utc u w)) in
  match fst (handle_join utc u w) with
  | CONFIRMED p =>
      roster_lines html_escape ev' !! (3 + Z.to_nat p)%nat
      = Some (String.concat ""
                [rjust 2 (py_str p); ". "; html_escape (full_name u); ""])
  | WAITLISTED p =>
      roster_lines html_escape ev'
        !! (5 + Nat.max 1 (length (players ev')) + Z.to_nat p)%nat
      = Some (String.concat ""
                ["WL"; rjust 2 (py_str p); ". "; html_escape (full_name u)])
  | _ => True
  end.
Proof.
  cbv zeta. destruct (join_refines w u) as (ev' & He & Hs).
  rewrite (roster_of_stored utc _ _ He). revert Hs.
  generalize (fst (handle_join utc u w)), (roster_of utc w),
    (utc (ticks (snd (ensure_event utc w)))).
  intros r ev ts Hs. destruct Hs; try done.
  - set (k := length (players ev)).
    replace (3 + Z.to_nat (Z.of_nat k + 1))%nat with (4 + k)%nat by lia.
    erewrite roster_lines_player; [|apply list_lookup_middle; done].
    unfold player_line. simpl is_vip. cbv iota. simpl name.
    do 5 f_equal. lia.
  - set (k := length (waitlist ev)).
    replace (5 + Nat.max 1 (length (players (set_waitlist (waitlist ev ++ [joined_row u ts]) ev)))
             + Z.to_nat (Z.of_nat k + 1))%nat
      with (6 + Nat.max 1 (length (players (set_waitlist (waitlist ev ++ [joined_row u ts]) ev))) + k)%nat
      by lia.
    erewrite roster_lines_waiting; [|apply list_lookup_middle; done].
    unfold wait_line. simpl name. do 6 f_equal. lia.
Qed.

(** ** The admin check *)

(** X17. [user_is_admin] says yes only when the update has a chat and a
    user and the lookup answers with an owner or an administrator; a
    missing chat or user, a failing lookup and every other kind of member
    give no. *)
Theorem user_is_admin_fails_closed
    (get_chat_member : Z -> Z -> option chat_member) (chat user : option Z) :
  user_is_admin get_chat_member chat user = true <->
  exists (c u : Z) (m : chat_member),
    chat = Some c /\ user = Some u /\ get_chat_member c u = Some m /\
    (m = ChatMemberOwner \/ m = ChatMemberAdministrator).
Proof.
  unfold user_is_admin. split.
  - destruct chat as [c|], user as [u|]; try discriminate.
    destruct (get_chat_member c u) as [m|] eqn:Hm; [|discriminate].
    intros Ha. exists c, u, m. repeat split; try done.
    destruct m; try discriminate; auto.
  - intros (c & u & m & -> & -> & Hm & [-> | ->]); now rewrite Hm.
Qed.

End Further.

(** * The handlers at work *)

(** ** Scenarios *)

(** [/newgame 3] by an admin: both VIP rows, no waitlist. *)
Example scenario_newgame_three :
  exists ev,
    chat_data (play [Newgame true ["3"]]) = Some ev /\
    capacity ev = 3 /\
    name <$> players ev = ["Albert"; "Ah Soon"] /\
    user_id <$> players ev = [None; None] /\
    is_vip <$> players ev = [true; true] /\
    waitlist ev = [] /\ locked ev = false.
Proof. eexists. repeat split. Qed.

(** Capacity 1: the first VIP fills the only slot and the next actor
    is waitlisted at position 1. *)
Example scenario_vip_fills_the_slot :
  fst (handle_join test_clock ann (play [Newgame true ["1"]])) = WAITLISTED 1.
Proof. reflexivity. Qed.

(** Join on a locked roster is refused whatever room is left. *)
Example scenario_join_locked :
  handle_join test_clock ann (play [Newgame true ["9"]; Lock true])
  = (LOCKED, play [Newgame true ["9"]; Lock true]).
Proof. reflexivity. Qed.

(** Joining twice: the second join reports the position and changes
    nothing. *)
Example scenario_join_twice :
  handle_join test_clock ann (play [Newgame true ["9"]; Join ann])
  = (ALREADY_CONFIRMED 3, play [Newgame true ["9"]; Join ann]).
Proof. reflexivity. Qed.

(** Both lists full: refused, with the roster as it was. *)
Example scenario_join_full :
  let full := set_waitlist (waitlist crowded ++ [joined_row (TgUser 5 "Eve") "t6";
                                                 joined_row (TgUser 6 "Flo") "t7"]) crowded in
  fst (handle_join test_clock (TgUser 7 "Gus") (World (Some full) 0)) = FULL /\
  chat_data (snd (handle_join test_clock (TgUser 7 "Gus") (World (Some full) 0)))
  = Some full.
Proof. split; reflexivity. Qed.

(** A roster for two: two actors are confirmed, the third is
    waitlisted, and when the first leaves the third is promoted. *)
Example scenario_promotion :
  let empty := {| title := None; capacity := 2; locked := false;
                  players := []; waitlist := []; created_at := "t0" |} in
  let w3 := run decimal_int plain_title test_clock [Join ann; Join bob; Join cy]
                (World (Some empty) 0) in
  fst (handle_join test_clock ann (World (Some empty) 0)) = CONFIRMED 1 /\
  user_id <$> players (roster_of test_clock w3) = [Some 1; Some 2] /\
  user_id <$> waitlist (roster_of test_clock w3) = [Some 3] /\
  fst (handle_leave test_clock ann w3)
  = LEFT_CONFIRMED (Some (joined_row cy (test_clock 2))) /\
  user_id <$> players (roster_of test_clock (snd (handle_leave test_clock ann w3)))
  = [Some 2; Some 3] /\
  waitlist (roster_of test_clock (snd (handle_leave test_clock ann w3))) = [].
Proof. repeat split. Qed.

(** ** Witnesses *)

Lemma leave_follows_spec_witness :
  exists ev',
    chat_data (snd (handle_leave test_clock ann (World (Some crowded) 0))) = Some ev' /\
    fst (handle_leave test_clock ann (World (Some crowded) 0))
    = LEFT_CONFIRMED (Some (joined_row cy "t3")) /\
    waitlist ev' = [joined_row dee "t4"; joined_row albert "t5"] /\
    length (players ev') = 2%nat.
Proof.
  destruct (leave_follows_spec test_clock (World (Some crowded) 0) ann)
    as (ev' & Hstored & _ & Hpromo).
  destruct (Hpromo (joined_row cy "t3") (joined_row dee "t4") (joined_row albert "t5"))
    as (Hr & Hw & _ & Hlen).
  - reflexivity.
  - vm_compute. constructor.
  - exists ev'. split; [exact Hstored|]. split; [exact Hr|].
    split; [exact Hw | exact Hlen].
Defined.

Lemma identifiers_distinct_witness :
  let ev := roster_of test_clock
              (play [Newgame true ["3"]; Join ann; Join bob; Join ann;
                     Leave ann; Join cy]) in
  2 ∈ ids (players ev) /\ 2 ∉ ids (waitlist ev).
Proof.
  intros ev.
  assert (Hin : 2 ∈ ids (players ev)) by (vm_compute; constructor).
  split; [exact Hin|].
  exact (proj2 (proj2 (identifiers_distinct decimal_int plain_title test_clock
                         [Newgame true ["3"]; Join ann; Join bob; Join ann;
                          Leave ann; Join cy] 0)) 2 Hin).
Defined.

Lemma reserved_rows_never_block_join_witness :
  let w1 := play [Newgame true []] in
  let reserved := vip_row "Albert" (test_clock 1) in
  let entry := joined_row albert (test_clock (ticks w1)) in
  reserved ∈ players (roster_of test_clock (snd (handle_join test_clock albert w1))) /\
  entry ∈ players (roster_of test_clock (snd (handle_join test_clock albert w1)))
          ++ waitlist (roster_of test_clock (snd (handle_join test_clock albert w1))) /\
  reserved <> entry /\
  name reserved = name entry.
Proof.
  intros w1 reserved entry.
  destruct (reserved_rows_never_block_join decimal_int plain_title test_clock
              (World None 0) (World None 0) [] albert)
    as (_ & _ & _ & _ & _ & Hboth).
  destruct (Hboth reserved) as (Hv & He & Hne).
  - vm_compute. constructor.
  - reflexivity.
  - split; [exact Hv|]. split; [exact He|]. split; [exact Hne | reflexivity].
Defined.

(** ** Where the code departs from the specification *)

(** C5, as stated, fails. After [/newgame 7], a [/newgame] without a
    capacity keeps capacity 7, and [/newgame 0] gives capacity 1; neither
    is the default capacity constant floored to 1, which is 15. *)
Lemma newgame_capacity_not_default :
  capacity_override decimal_int [] = None /\
  capacity (roster_of test_clock (play [Newgame true ["7"]; Newgame true []])) = 7 /\
  capacity_override decimal_int ["0"] = Some 0 /\
  capacity (roster_of test_clock (play [Newgame true ["0"]])) = 1 /\
  capacity (roster_of test_clock (play [Newgame true ["7"]; Newgame true []]))
    <> Z.max 1 DEFAULT_CAPACITY /\
  capacity (roster_of test_clock (play [Newgame true ["0"]]))
    <> Z.max 1 DEFAULT_CAPACITY.
Proof. repeat split; discriminate. Qed.

(** C6 at [/newgame 0]. The roster gets capacity 1, and one VIP name
    fits into it, yet no row is seeded: the seeded rows are cut at the
    capacity as given, 0, not at the floored one. *)
Theorem newgame_zero_seeds_no_vip :
  exists ev,
    chat_data (play [Newgame true ["0"]]) = Some ev /\
    capacity ev = 1 /\
    take (Z.to_nat (Z.min (capacity ev) (Z.of_nat (length VIP_NAMES)))) VIP_NAMES
      = ["Albert"] /\
    fst (vip_rows test_clock (Z.max 1 0) (World None 0))
      = [vip_row "Albert" (test_clock 0)] /\
    players ev = [].
Proof. eexists. repeat split. Qed.

(** ** The rest of the handlers at work *)

(** The roster text of a roster with a reserved row, an actor whose
    name needs escaping, and one actor waiting. *)
Example scenario_roster_text :
  roster_lines html_escape_text
    {| title := None; capacity := 2; locked := false;
       players := [vip_row "Albert" "t1"; joined_row (TgUser 7 "Tom & <Jerry>") "t2"];
       waitlist := [joined_row cy "t3"]; created_at := "t0" |}
  = [ "<b>⚽ Upcoming Game</b>";
      "Slots: <b>2/2</b>  •  Waitlist: <b>1/5</b>";
      "";
      "<b>Confirmed</b>";
      " 1. Albert (VIP)";
      " 2. Tom &amp; &lt;Jerry&gt;";
      "";
      "<b>Waitlist</b>";
      "WL 1. Cy" ].
Proof. reflexivity. Qed.

Lemma rows_stay_under_joins_witness :
  let w := play [Newgame true ["3"]] in
  let w' := run decimal_int plain_title test_clock
              [Join ann; Lock true; Join bob; Unlock true; Join bob] w in
  forallb adds_only [Join ann; Lock true; Join bob; Unlock true; Join bob] = true /\
  players (roster_of test_clock w) `prefix_of` players (roster_of test_clock w') /\
  capacity (roster_of test_clock w') = 3.
Proof.
  intros w w'.
  destruct (rows_stay_under_joins decimal_int plain_title test_clock
              [Join ann; Lock true; Join bob; Unlock true; Join bob] w eq_refl)
    as (Hp & _ & Hc & _).
  split; [reflexivity|]. split; [exact Hp | exact Hc].
Defined.

Lemma nobody_waits_while_a_slot_is_free_witness :
  let ev := roster_of test_clock
              (play [Newgame true ["3"]; Join ann; Join bob; Lock true;
                     Reset true; Join cy]) in
  waitlist ev = [] \/ capacity ev <= Z.of_nat (length (players ev)).
Proof.
  exact (nobody_waits_while_a_slot_is_free decimal_int plain_title test_clock
           [Newgame true ["3"]; Join ann; Join bob; Lock true; Reset true; Join cy]
           0%nat eq_refl).
Defined.

Lemma unknown_button_does_nothing_witness :
  on_button html_escape_text test_clock "noop" ann (World (Some crowded) 4)
  = (None, World (Some crowded) 4).
Proof.
  apply (unknown_button_does_nothing test_clock html_escape_text "noop" ann);
    discriminate.
Defined.

Lemma user_is_admin_fails_closed_witness :
  user_is_admin sample_directory (Some 10) (Some 1) = true /\
  ~ (exists (c u : Z) (m : chat_member),
       Some 10 = Some c /\ Some 3 = Some u /\ sample_directory c u = Some m /\
       (m = ChatMemberOwner \/ m = ChatMemberAdministrator)).
Proof.
  split.
  - apply (proj2 (user_is_admin_fails_closed sample_directory (Some 10) (Some 1))).
    exists 10, 1, ChatMemberOwner. repeat split. now left.
  - intros H.
    apply (proj2 (user_is_admin_fails_closed sample_directory (Some 10) (Some 3))) in H.
    discriminate H.
Defined.
